(** * Verification of the conversational agent core (cf_ai_amjad)

    A shallow embedding of
      - [src/utils/helpers.ts]        (sanitizeInput, estimateTokenCount, retry),
      - the Durable Object [AIAgent]  (processMessage, buildContext,
        generateAIResponse, the WebSocket handlers, workflow bookkeeping),
      - [ToolRegistry]                (execute, validateParameters,
        checkRateLimit, logExecution),
    followed by the properties established about them.

    Conventions of the embedding.
      - A JavaScript string is a Rocq [string]; a character stands for one
        UTF-16 code unit below 256, so [String.length] is [.length].
      - A JavaScript number that the code uses as a count, a length or a
        millisecond timestamp is a [Z].
      - [Date.now()], [Math.random()], the Workers AI binding, Vectorize, the
        SQL store and the Durable Object storage are external: their answers
        are read from an oracle ([Env]) indexed by the number of external
        interactions made so far.
      - An [async] method is a computation in the state-and-exception monad
        [M]; [await] is sequencing, [try]/[catch] is [try_catch]. *)

From Stdlib Require Import ZArith String Ascii List Lia DecimalString.
From stdpp Require Import gmap strings list.

Local Open Scope Z_scope.

(* ===================================================================== *)
(** * JavaScript string primitives used by the sources *)
(* ===================================================================== *)

Module JsString.

(** [WhiteSpace] and [LineTerminator] code units recognised by
    [String.prototype.trim], restricted to code units below 256:
    TAB, LF, VT, FF, CR, SPACE and NO-BREAK SPACE. *)
Definition is_white_space (c : ascii) : bool :=
  let n := nat_of_ascii c in
  (Nat.eqb n 9 || Nat.eqb n 10 || Nat.eqb n 11 || Nat.eqb n 12
   || Nat.eqb n 13 || Nat.eqb n 32 || Nat.eqb n 160)%bool.

Fixpoint trimStart (s : string) : string :=
  match s with
  | EmptyString => EmptyString
  | String c s' => if is_white_space c then trimStart s' else s
  end.

Definition trimEnd (s : string) : string :=
  String.rev (trimStart (String.rev s)).

(** [s.trim()] *)
Definition trim (s : string) : string := trimEnd (trimStart s).

(** [s.replace(/[cs]/g, '')] for a character class given as a predicate. *)
Fixpoint remove_all (p : ascii -> bool) (s : string) : string :=
  match s with
  | EmptyString => EmptyString
  | String c s' => if p c then remove_all p s' else String c (remove_all p s')
  end.

(** [xs.join(sep)] *)
Definition join (sep : string) (xs : list string) : string :=
  String.concat sep xs.

(** [s.split(sep)] for a one-character separator.  [split_go cur s] carries
    the current, not yet closed, piece in reverse.  The result is never
    empty: [''.split(' ')] is [['']]. *)
Fixpoint split_go (sep : ascii) (cur : string) (s : string) : list string :=
  match s with
  | EmptyString => [String.rev cur]
  | String c s' =>
      if Ascii.eqb c sep
      then String.rev cur :: split_go sep EmptyString s'
      else split_go sep (String c cur) s'
  end.

Definition split (sep : ascii) (s : string) : list string :=
  split_go sep EmptyString s.

(** [s.repeat(n)] *)
Fixpoint repeat (s : string) (n : nat) : string :=
  match n with
  | O => EmptyString
  | S n' => s +:+ repeat s n'
  end.

(** [String(n)] for an integer [n]. *)
Definition of_Z (n : Z) : string := NilZero.string_of_int (Z.to_int n).

(** Truthiness of a string: only [''] is falsy. *)
Definition truthy (s : string) : bool :=
  match s with EmptyString => false | _ => true end.

(** [s.substring(0, end)]: [end] is clamped to [0 .. s.length]. *)
Definition substring_to (end_ : Z) (s : string) : string :=
  String.substring 0 (Z.to_nat end_) s.

(** [s.startsWith(p)] *)
Definition startsWith (p s : string) : bool := String.prefix p s.

(** [s.endsWith(p)] *)
Definition endsWith (p s : string) : bool :=
  String.prefix (String.rev p) (String.rev s).

(** [s] without its first [n] characters. *)
Fixpoint skip (n : nat) (s : string) : string :=
  match n, s with
  | O, _ => s
  | S _, EmptyString => EmptyString
  | S n', String _ s' => skip n' s'
  end.

(** [s.replace(pat, '')] for a string pattern [pat]: the first occurrence
    of [pat], if there is one, is removed. *)
Fixpoint remove_first (pat s : string) : string :=
  if String.prefix pat s then skip (String.length pat) s
  else match s with
       | EmptyString => EmptyString
       | String c s' => String c (remove_first pat s')
       end.

End JsString.

(* ===================================================================== *)
(** * [src/utils/helpers.ts], pure part *)
(* ===================================================================== *)

Module Helpers.

(** [Math.ceil(n / d)] for a non-negative integer [n] and [d > 0]. *)
Definition ceil_div (n d : Z) : Z := (n + d - 1) / d.

Definition is_angle_bracket (c : ascii) : bool :=
  (Ascii.eqb c "<" || Ascii.eqb c ">")%bool.

(** [input.trim().replace(/[<>]/g, '')] *)
Definition sanitizeInput (input : string) : string :=
  JsString.remove_all is_angle_bracket (JsString.trim input).

(** [Math.ceil(text.length / 4)] *)
Definition estimateTokenCount (text : string) : Z :=
  ceil_div (Z.of_nat (String.length text)) 4.

(** [truncate]: [text] when it fits, otherwise
    [text.substring(0, maxLength - 3) + '...']. *)
Definition truncate (text : string) (maxLength : Z) : string :=
  if Z.of_nat (String.length text) <=? maxLength then text
  else JsString.substring_to (maxLength - 3) text +:+ "...".

End Helpers.

(* ===================================================================== *)
(** * [src/types]: the data model of the agent *)
(* ===================================================================== *)

Inductive Role := user | assistant | system.

(** [metadata] of an assistant message, as [processMessage] fills it. *)
Record MessageMetadata := {
  responseTime : Z;
  model : string;
  tokensUsed : Z;
}.

Record Message := {
  msg_id : string;
  msg_role : Role;
  msg_content : string;
  msg_timestamp : Z;
  msg_metadata : option MessageMetadata;
}.

Record Memory := {
  mem_id : string;
  mem_type : string;
  mem_content : string;
  mem_embedding : list Z;
  mem_timestamp : Z;
  mem_userId : string;
  mem_importance : Z;
}.

(** An entry of [state.activeWorkflows].  [updateWorkflowStatus] takes the
    status as a [string] and stores it after a type cast, so the field holds
    whatever string the caller passed. *)
Record WorkflowDefinition := {
  wf_id : string;
  wf_name : string;
  wf_status : string;
}.

Record UserContext := { userId : string }.

Record AgentState := {
  conversationHistory : list Message;
  userContext : UserContext;
  activeWorkflows : list WorkflowDefinition;
  lastActivity : Z;
}.

(** A row of the SQL table [workflows]. *)
Record WorkflowRow := {
  row_id : string;
  row_name : string;
  row_status : string;
  row_params : string;
  row_result : option string;
  row_created_at : Z;
  row_completed_at : option Z;
}.

(** A vector upserted into Vectorize by [storeInMemory]. *)
Record VectorRecord := {
  vec_id : string;
  vec_values : list Z;
  vec_content : string;
  vec_type : string;
  vec_timestamp : Z;
  vec_messageId : string;
  vec_userId : string;
  vec_role : Role;
}.

(** The JSON objects the agent hands to [ws.send], one constructor per
    [type] tag with the properties the object literal has. *)
Inductive WsMessage :=
  | WsConnected (message : string) (agentId : string) (connectionId : string)
      (timestamp : Z)
  | WsTyping (timestamp : Z)
  | WsToken (content : string) (timestamp : Z)
  | WsMessageComplete (messageId : string) (timestamp : Z)
  | WsError (message : string) (error : option string) (timestamp : Z)
  | WsPong (timestamp : Z)
  | WsHistory (history : list Message) (timestamp : Z)
  | WsHistoryCleared (message : string) (timestamp : Z).

(** The [content] property of a frame; only [token] frames have one. *)
Definition ws_content (m : WsMessage) : option string :=
  match m with
  | WsToken c _ => Some c
  | _ => None
  end.

Definition is_token (m : WsMessage) : bool :=
  match m with WsToken _ _ => true | _ => false end.

(** The text of the [token] frames of a sequence of frames, in order. *)
Definition token_texts (ms : list WsMessage) : list string :=
  omap (fun m => if is_token m then ws_content m else None) ms.

(** What the Workers AI binding resolves to: [resp_response] is the
    [response] property when it is present, [resp_data0] is [data[0]] when
    [data] and [data[0]] are present. *)
Record AIResponse := {
  resp_response : option string;
  resp_data0 : option (list Z);
}.

Inductive AIOutcome :=
  | AIRejects (err : string)
  | AIResolves (r : AIResponse).

(** The outside world.  Every field answers the external interaction number
    [k] (counted over all interactions of the agent), so that any sequence
    of answers can be represented.  [None] for [vectorize_upsert],
    [sql_exec] and [storage_put] is success, [Some e] a rejection with
    message [e]: any failure of the statement, also the violation of a
    constraint of the schema such as [id TEXT PRIMARY KEY].
    [storage_id] is [this.storage.id?.toString()]. *)
Record Env := {
  date_now : nat -> Z;
  math_random : nat -> string;
  ai_run : nat -> AIOutcome;
  vectorize_upsert : nat -> option string;
  vectorize_query : nat -> string + list Memory;
  sql_exec : nat -> option string;
  storage_put : nat -> option string;
  storage_id : string;
}.

(** Observable calls that leave no other mark on the state. *)
Inductive Effect :=
  | EffAIRun (model : string)
  | EffSleep (ms : Z).

(** The agent object and the stores it writes to.
    [sockets] holds, per server socket (numbered in order of creation), the
    frames handed to its [send]; [activeConnections] maps a connection id to
    its socket. *)
Record World := {
  interactions : nat;
  trace : list Effect;
  state : AgentState;
  messages_table : list Message;
  workflows_table : list WorkflowRow;
  storage_state : option AgentState;
  vector_index : list VectorRecord;
  sockets : list (list WsMessage);
  activeConnections : gmap string nat;
}.

(* ===================================================================== *)
(** * The state-and-exception monad of [async] methods *)
(* ===================================================================== *)

Inductive Outcome (A : Type) :=
  | Returned (a : A)
  | Thrown (message : string).
Arguments Returned {A} a.
Arguments Thrown {A} message.

Definition M (A : Type) : Type := World -> Outcome A * World.

Definition ret {A} (a : A) : M A := fun w => (Returned a, w).

Definition throw {A} (e : string) : M A := fun w => (Thrown e, w).

Definition bind {A B} (c : M A) (k : A -> M B) : M B :=
  fun w =>
    match c w with
    | (Returned a, w') => k a w'
    | (Thrown e, w') => (Thrown e, w')
    end.

(** [try { c } catch (error) { h error.message }] *)
Definition try_catch {A} (c : M A) (h : string -> M A) : M A :=
  fun w =>
    match c w with
    | (Returned a, w') => (Returned a, w')
    | (Thrown e, w') => h e w'
    end.

Notation "x <- c ;; k" := (bind c (fun x => k))
  (at level 62, c at next level, right associativity).
Notation "c ;;; k" := (bind c (fun _ => k))
  (at level 62, right associativity).

Definition get : M World := fun w => (Returned w, w).
Definition modify (f : World -> World) : M unit := fun w => (Returned tt, f w).

(** Field updates of [World] and [AgentState]. *)
Definition set_interactions (n : nat) (w : World) : World :=
  {| interactions := n; trace := trace w; state := state w;
     messages_table := messages_table w; workflows_table := workflows_table w;
     storage_state := storage_state w; vector_index := vector_index w;
     sockets := sockets w; activeConnections := activeConnections w |}.

Definition set_trace (t : list Effect) (w : World) : World :=
  {| interactions := interactions w; trace := t; state := state w;
     messages_table := messages_table w; workflows_table := workflows_table w;
     storage_state := storage_state w; vector_index := vector_index w;
     sockets := sockets w; activeConnections := activeConnections w |}.

Definition set_state (s : AgentState) (w : World) : World :=
  {| interactions := interactions w; trace := trace w; state := s;
     messages_table := messages_table w; workflows_table := workflows_table w;
     storage_state := storage_state w; vector_index := vector_index w;
     sockets := sockets w; activeConnections := activeConnections w |}.

Definition set_messages_table (t : list Message) (w : World) : World :=
  {| interactions := interactions w; trace := trace w; state := state w;
     messages_table := t; workflows_table := workflows_table w;
     storage_state := storage_state w; vector_index := vector_index w;
     sockets := sockets w; activeConnections := activeConnections w |}.

Definition set_workflows_table (t : list WorkflowRow) (w : World) : World :=
  {| interactions := interactions w; trace := trace w; state := state w;
     messages_table := messages_table w; workflows_table := t;
     storage_state := storage_state w; vector_index := vector_index w;
     sockets := sockets w; activeConnections := activeConnections w |}.

Definition set_storage_state (s : option AgentState) (w : World) : World :=
  {| interactions := interactions w; trace := trace w; state := state w;
     messages_table := messages_table w; workflows_table := workflows_table w;
     storage_state := s; vector_index := vector_index w;
     sockets := sockets w; activeConnections := activeConnections w |}.

Definition set_vector_index (v : list VectorRecord) (w : World) : World :=
  {| interactions := interactions w; trace := trace w; state := state w;
     messages_table := messages_table w; workflows_table := workflows_table w;
     storage_state := storage_state w; vector_index := v;
     sockets := sockets w; activeConnections := activeConnections w |}.

Definition set_sockets (s : list (list WsMessage)) (w : World) : World :=
  {| interactions := interactions w; trace := trace w; state := state w;
     messages_table := messages_table w; workflows_table := workflows_table w;
     storage_state := storage_state w; vector_index := vector_index w;
     sockets := s; activeConnections := activeConnections w |}.

Definition set_activeConnections (c : gmap string nat) (w : World) : World :=
  {| interactions := interactions w; trace := trace w; state := state w;
     messages_table := messages_table w; workflows_table := workflows_table w;
     storage_state := storage_state w; vector_index := vector_index w;
     sockets := sockets w; activeConnections := c |}.

Definition set_conversationHistory (h : list Message) (s : AgentState) : AgentState :=
  {| conversationHistory := h; userContext := userContext s;
     activeWorkflows := activeWorkflows s; lastActivity := lastActivity s |}.

Definition set_userContext (u : UserContext) (s : AgentState) : AgentState :=
  {| conversationHistory := conversationHistory s; userContext := u;
     activeWorkflows := activeWorkflows s; lastActivity := lastActivity s |}.

Definition set_activeWorkflows (l : list WorkflowDefinition) (s : AgentState) : AgentState :=
  {| conversationHistory := conversationHistory s; userContext := userContext s;
     activeWorkflows := l; lastActivity := lastActivity s |}.

Definition set_lastActivity (t : Z) (s : AgentState) : AgentState :=
  {| conversationHistory := conversationHistory s; userContext := userContext s;
     activeWorkflows := activeWorkflows s; lastActivity := t |}.

(** The state the constructor builds, before anything is loaded; the
    constructor's own [Date.now()] is passed in. *)
Definition initial_state (now : Z) : AgentState :=
  {| conversationHistory := []; userContext := {| userId := "" |};
     activeWorkflows := []; lastActivity := now |}.

Definition initial_world (now : Z) : World :=
  {| interactions := 0; trace := []; state := initial_state now;
     messages_table := []; workflows_table := []; storage_state := None;
     vector_index := []; sockets := []; activeConnections := ∅ |}.

(* ===================================================================== *)
(** * The agent: [class AIAgent] and the effectful helpers it imports *)
(* ===================================================================== *)

Module AIAgent.
Section WithEnv.

Variable env : Env.

Definition MAX_CONTEXT_TOKENS : Z := 4096.
Definition MAX_HISTORY_MESSAGES : nat := 50.
Definition EMBEDDING_MODEL : string := "@cf/baai/bge-base-en-v1.5".
Definition LLM_MODEL : string := "@cf/meta/llama-3.3-70b-instruct-fp8-fast".

(** The model the sibling class [AIService] falls back to; the module of
    [AIAgent] neither declares nor uses it. *)
Definition FALLBACK_MODEL : string := "@cf/meta/llama-3.1-8b-instruct".

Definition SYSTEM_PROMPT : string :=
  "You are a helpful AI assistant powered by Cloudflare Workers AI. You have access to conversation history and relevant memories. Be concise, helpful, and friendly.".

Definition APOLOGY : string :=
  "I apologize, but I encountered an error generating a response. Please try again.".

Definition newline : string := String "010"%char EmptyString.

(** ** External interactions *)

(** Take the number of the next external interaction. *)
Definition interact : M nat :=
  fun w => (Returned (interactions w), set_interactions (S (interactions w)) w).

Definition Date_now : M Z := k <- interact ;; ret (date_now env k).

(** [Math.random().toString(36).substring(2, 9)] *)
Definition Math_random_suffix : M string :=
  k <- interact ;; ret (math_random env k).

Definition record (e : Effect) : M unit :=
  modify (fun w => set_trace (trace w ++ [e]) w).

(** [sleep(ms)], also [new Promise(r => setTimeout(r, ms))] *)
Definition sleep (ms : Z) : M unit := record (EffSleep ms).

(** [this.env.AI.run(model, ...)] *)
Definition AI_run (model : string) : M AIResponse :=
  record (EffAIRun model) ;;;
  k <- interact ;;
  match ai_run env k with
  | AIRejects e => throw e
  | AIResolves r => ret r
  end.

(** ** helpers.ts: generateId and retry *)

Definition generateId : M string :=
  now <- Date_now ;;
  r <- Math_random_suffix ;;
  ret (JsString.of_Z now +:+ "-" +:+ r).

(** The [for] loop of [retry], entered with [i = maxRetries - remaining]
    and [lastError]; leaving the loop throws [lastError]. *)
Fixpoint retry_from {A} (fn : M A) (maxRetries : nat) (delayMs : Z)
    (remaining : nat) (lastError : string) : M A :=
  match remaining with
  | O => throw lastError
  | S remaining' =>
      let i := (maxRetries - remaining)%nat in
      try_catch fn (fun error =>
        (if (i <? maxRetries - 1)%nat
         then sleep (delayMs * 2 ^ Z.of_nat i)
         else ret tt) ;;;
        retry_from fn maxRetries delayMs remaining' error)
  end.

Definition retry {A} (fn : M A) (maxRetries : nat) (delayMs : Z) : M A :=
  retry_from fn maxRetries delayMs maxRetries "undefined".

(** ** Persistence *)

(** [saveMessage]: INSERT INTO messages *)
Definition saveMessage (message : Message) : M unit :=
  k <- interact ;;
  match sql_exec env k with
  | Some e => throw e
  | None => modify (fun w => set_messages_table (messages_table w ++ [message]) w)
  end.

Definition saveState : M unit :=
  now <- Date_now ;;
  modify (fun w => set_state (set_lastActivity now (state w)) w) ;;;
  k <- interact ;;
  match storage_put env k with
  | Some e => throw e
  | None => modify (fun w => set_storage_state (Some (state w)) w)
  end.

(** ** Semantic memory *)

Definition generateEmbedding (text : string) : M (list Z) :=
  try_catch
    (response <- AI_run EMBEDDING_MODEL ;;
     match resp_data0 response with
     | Some v => ret v
     | None => throw "Invalid embedding response"
     end)
    (fun error => throw error).

Definition storeInMemory (content type messageId userId : string) (role : Role)
    : M unit :=
  try_catch
    (embedding <- generateEmbedding content ;;
     id <- generateId ;;
     ts <- Date_now ;;
     k <- interact ;;
     match vectorize_upsert env k with
     | Some e => throw e
     | None =>
         modify (fun w => set_vector_index (vector_index w ++
           [{| vec_id := id; vec_values := embedding; vec_content := content;
               vec_type := type; vec_timestamp := ts;
               vec_messageId := messageId; vec_userId := userId;
               vec_role := role |}]) w)
     end)
    (fun _ => ret tt).

(** [searchMemory(query)]; the bound [topK = 5] is passed on to Vectorize. *)
Definition searchMemory (query : string) : M (list Memory) :=
  try_catch
    (embedding <- generateEmbedding query ;;
     k <- interact ;;
     match vectorize_query env k with
     | inl e => throw e
     | inr matches => ret matches
     end)
    (fun _ => ret []).

(** ** Context assembly *)

Record PromptMessage := { pm_role : Role; pm_content : string }.

(** [`Relevant context from past conversations:\n${memoryContext}`] *)
Definition memory_segment (memories : list Memory) : string :=
  "Relevant context from past conversations:" +:+ newline +:+
  JsString.join newline (map (fun m => "- " +:+ mem_content m) memories).

(** The segments pushed before the history loop. *)
Definition system_segments (memories : list Memory) : list PromptMessage :=
  {| pm_role := system; pm_content := SYSTEM_PROMPT |} ::
  match memories with
  | [] => []
  | _ :: _ => [{| pm_role := system; pm_content := memory_segment memories |}]
  end.

(** The [for (const msg of recentHistory)] loop: [break] at the first
    message that would pass the budget, otherwise [unshift] it. *)
Fixpoint select_history (recentHistory : list Message) (tokenCount : Z)
    (messages : list PromptMessage) : list PromptMessage :=
  match recentHistory with
  | [] => messages
  | msg :: rest =>
      let msgTokens := Helpers.estimateTokenCount (msg_content msg) in
      if tokenCount + msgTokens >? MAX_CONTEXT_TOKENS
      then messages
      else select_history rest (tokenCount + msgTokens)
             ({| pm_role := msg_role msg; pm_content := msg_content msg |}
              :: messages)
  end.

(** The token count the builder starts the loop with. *)
Definition initial_tokenCount (memories : list Memory) : Z :=
  Helpers.estimateTokenCount
    (JsString.join " " (map pm_content (system_segments memories))).

(** [buildContext] as a function of [this.state.conversationHistory]. *)
Definition buildContext_of (history : list Message) (memories : list Memory)
    : list PromptMessage :=
  select_history (rev history) (initial_tokenCount memories)
    (system_segments memories).

Definition buildContext (_currentMessage : string) (memories : list Memory)
    : M (list PromptMessage) :=
  w <- get ;;
  ret (buildContext_of (conversationHistory (state w)) memories).

(** ** Inference *)

Definition generateAIResponse (messages : list PromptMessage) : M string :=
  try_catch
    (response <- retry (AI_run LLM_MODEL) 3 1000 ;;
     match resp_response response with
     | Some r => if JsString.truthy r then ret r
                 else throw "Invalid AI response format"
     | None => throw "Invalid AI response format"
     end)
    (fun _ => ret APOLOGY).

(** ** History *)

Definition push_history (m : Message) : M unit :=
  modify (fun w =>
    set_state (set_conversationHistory
                 (conversationHistory (state w) ++ [m]) (state w)) w).

(** [trimHistory]: [slice(-MAX_HISTORY_MESSAGES)] when longer. *)
Definition trimHistory : M unit :=
  modify (fun w =>
    let h := conversationHistory (state w) in
    if (MAX_HISTORY_MESSAGES <? length h)%nat
    then set_state (set_conversationHistory
                      (drop (length h - MAX_HISTORY_MESSAGES) h) (state w)) w
    else w).

Definition clearHistory : M unit :=
  k <- interact ;;
  match sql_exec env k with
  | Some e => throw e
  | None =>
      modify (fun w => set_messages_table [] w) ;;;
      modify (fun w => set_state (set_conversationHistory [] (state w)) w) ;;;
      saveState
  end.

(** [userId || 'anonymous'] *)
Definition or_anonymous (userId : option string) : string :=
  match userId with
  | Some u => if JsString.truthy u then u else "anonymous"
  | None => "anonymous"
  end.

(** ** processMessage *)

Definition processMessage (content : string) (userId : option string)
    : M Message :=
  startTime <- Date_now ;;
  let sanitizedContent := Helpers.sanitizeInput content in
  match userId with
  | Some u =>
      if JsString.truthy u
      then modify (fun w => set_state (set_userContext {| userId := u |} (state w)) w)
      else ret tt
  | None => ret tt
  end ;;;
  uid <- generateId ;;
  uts <- Date_now ;;
  let userMessage :=
    {| msg_id := uid; msg_role := user; msg_content := sanitizedContent;
       msg_timestamp := uts; msg_metadata := None |} in
  push_history userMessage ;;;
  saveMessage userMessage ;;;
  storeInMemory sanitizedContent "conversation" uid (or_anonymous userId) user ;;;
  relevantMemories <- searchMemory sanitizedContent ;;
  context <- buildContext sanitizedContent relevantMemories ;;
  aiResponse <- generateAIResponse context ;;
  aid <- generateId ;;
  ats <- Date_now ;;
  rts <- Date_now ;;
  let assistantMessage :=
    {| msg_id := aid; msg_role := assistant; msg_content := aiResponse;
       msg_timestamp := ats;
       msg_metadata := Some {| responseTime := rts - startTime;
                               model := LLM_MODEL;
                               tokensUsed := Helpers.estimateTokenCount aiResponse |} |} in
  push_history assistantMessage ;;;
  saveMessage assistantMessage ;;;
  storeInMemory aiResponse "conversation" aid (or_anonymous userId) assistant ;;;
  saveState ;;;
  trimHistory ;;;
  _ <- Date_now ;;
  ret assistantMessage.

(** ** WebSocket handling *)

(** [sendWebSocketMessage]: hands the frame to [ws.send]; an exception of
    [send] is caught and logged there, so the caller never sees one.  The
    model records the frame as handed to the socket. *)
Definition sendWebSocketMessage (ws : nat) (message : WsMessage) : M unit :=
  modify (fun w => set_sockets (alter (fun q => q ++ [message]) ws (sockets w)) w).

(** The [for] loop of [streamResponse] over the remaining [words]:
    [i < words.length - 1] holds exactly when more words follow. *)
Fixpoint stream_words (ws : nat) (words : list string) : M unit :=
  match words with
  | [] => ret tt
  | w :: rest =>
      let word := w +:+ (match rest with [] => "" | _ :: _ => " " end) in
      ts <- Date_now ;;
      sendWebSocketMessage ws (WsToken word ts) ;;;
      sleep 50 ;;;
      stream_words ws rest
  end.

Definition streamResponse (ws : nat) (content : string) : M unit :=
  stream_words ws (JsString.split " " content).

Definition handleChatMessage (ws : nat) (content : string)
    (userId : option string) : M unit :=
  ts <- Date_now ;;
  sendWebSocketMessage ws (WsTyping ts) ;;;
  try_catch
    (response <- processMessage content userId ;;
     streamResponse ws (msg_content response) ;;;
     cts <- Date_now ;;
     sendWebSocketMessage ws (WsMessageComplete (msg_id response) cts))
    (fun error =>
       ets <- Date_now ;;
       sendWebSocketMessage ws
         (WsError "Failed to process message" (Some error) ets)).

(** The parsed payload of an incoming frame, by its [type]. *)
Inductive ClientMessage :=
  | CMessage (content : string) (userId : option string)
  | CPing
  | CGetHistory
  | CClearHistory
  | COther (type : string).

Definition handleWebSocketMessage (ws : nat) (data : ClientMessage)
    (connectionId : string) : M unit :=
  match data with
  | CMessage content userId => handleChatMessage ws content userId
  | CPing =>
      ts <- Date_now ;; sendWebSocketMessage ws (WsPong ts)
  | CGetHistory =>
      w <- get ;;
      ts <- Date_now ;;
      sendWebSocketMessage ws (WsHistory (conversationHistory (state w)) ts)
  | CClearHistory =>
      clearHistory ;;;
      ts <- Date_now ;;
      sendWebSocketMessage ws
        (WsHistoryCleared "Conversation history cleared" ts)
  | COther _ => ret tt
  end.

(** [handleWebSocket]: a new socket pair, a fresh connection id, the
    registration in [activeConnections] and the welcome frame.  Returns the
    connection id and the server socket the listeners close over. *)
Definition handleWebSocket : M (string * nat) :=
  w <- get ;;
  let server := length (sockets w) in
  connectionId <- generateId ;;
  modify (fun w => set_sockets (sockets w ++ [[]]) w) ;;;
  modify (fun w => set_activeConnections
                     (<[connectionId := server]> (activeConnections w)) w) ;;;
  ts <- Date_now ;;
  sendWebSocketMessage server
    (WsConnected "Connected to AI Agent" (storage_id env) connectionId ts) ;;;
  ret (connectionId, server).

(** The ['message'] listener installed by [handleWebSocket]. *)
Definition on_message (conn : string * nat) (data : ClientMessage) : M unit :=
  try_catch
    (handleWebSocketMessage (snd conn) data (fst conn))
    (fun error =>
       ts <- Date_now ;;
       sendWebSocketMessage (snd conn) (WsError error None ts)).

(** The ['close'] and ['error'] listeners. *)
Definition on_close (conn : string * nat) : M unit :=
  modify (fun w => set_activeConnections
                     (delete (fst conn) (activeConnections w)) w).

(** ** Workflow bookkeeping *)

Definition triggerWorkflow (name params : string) : M string :=
  workflowId <- generateId ;;
  now <- Date_now ;;
  k <- interact ;;
  match sql_exec env k with
  | Some e => throw e
  | None =>
      modify (fun w => set_workflows_table (workflows_table w ++
        [{| row_id := workflowId; row_name := name; row_status := "pending";
            row_params := params; row_result := None;
            row_created_at := now; row_completed_at := None |}]) w) ;;;
      modify (fun w => set_state (set_activeWorkflows
        (activeWorkflows (state w) ++
           [{| wf_id := workflowId; wf_name := name; wf_status := "pending" |}])
        (state w)) w) ;;;
      saveState ;;;
      ret workflowId
  end.

(** [UPDATE workflows SET status = ?, result = ?, completed_at = ?
     WHERE id = ?] on one row. *)
Definition update_row (workflowId status : string) (result : option string)
    (now : Z) (r : WorkflowRow) : WorkflowRow :=
  if decide (row_id r = workflowId)
  then {| row_id := row_id r; row_name := row_name r; row_status := status;
          row_params := row_params r; row_result := result;
          row_created_at := row_created_at r; row_completed_at := Some now |}
  else r.

(** [const workflow = activeWorkflows.find(w => w.id === workflowId);
     if (workflow) workflow.status = status] *)
Fixpoint set_status_of_first (workflowId status : string)
    (l : list WorkflowDefinition) : list WorkflowDefinition :=
  match l with
  | [] => []
  | wf :: rest =>
      if decide (wf_id wf = workflowId)
      then {| wf_id := wf_id wf; wf_name := wf_name wf; wf_status := status |}
           :: rest
      else wf :: set_status_of_first workflowId status rest
  end.

(** [result] is the caller's value already rendered by [JSON.stringify],
    [None] when the caller passed nothing or a falsy value. *)
Definition updateWorkflowStatus (workflowId status : string)
    (result : option string) : M unit :=
  now <- Date_now ;;
  k <- interact ;;
  match sql_exec env k with
  | Some e => throw e
  | None =>
      modify (fun w => set_workflows_table
        (map (update_row workflowId status result now) (workflows_table w)) w) ;;;
      modify (fun w => set_state (set_activeWorkflows
        (set_status_of_first workflowId status (activeWorkflows (state w)))
        (state w)) w) ;;;
      saveState
  end.

(** [find(w => w.id === workflowId)] *)
Definition find_workflow (workflowId : string) (l : list WorkflowDefinition)
    : option WorkflowDefinition :=
  List.find (fun wf => bool_decide (wf_id wf = workflowId)) l.

(** ** HTTP requests to the Durable Object *)

(** What [fetch] reads of a request whose URL parses: the [Upgrade] header,
    the path of the parsed URL, the method, and what reading the body gives:
    the [content] and [userId] of a body that is an object with a string
    [content], or the message of the error that [request.json()] rejects
    with. *)
Record Request := {
  req_upgrade : option string;
  req_pathname : string;
  req_method : string;
  req_json : string + (string * option string);
}.

(** The JSON bodies [fetch] answers with. *)
Inductive ResponseBody :=
  | BodyHealth (agentId : string) (lastActivity : Z) (messageCount : nat)
      (activeWorkflows : nat)
  | BodyHistory (history : list Message) (totalMessages : nat)
  | BodyMessage (response : Message)
  | BodyContext (context : UserContext)
  | BodyInfo (message : string)
  | BodyError (error : string).

(** [Response.json(body, { status })], and the 101 answer of
    [handleWebSocket] with the client end of the new socket pair. *)
Inductive Response :=
  | JsonResponse (status : Z) (body : ResponseBody)
  | UpgradeResponse (connectionId : string) (server : nat).

Definition response_status (r : Response) : Z :=
  match r with
  | JsonResponse status _ => status
  | UpgradeResponse _ _ => 101
  end.

Definition fetch (request : Request) : M Response :=
  try_catch
    (if bool_decide (req_upgrade request = Some "websocket") then
       conn <- handleWebSocket ;;
       ret (UpgradeResponse (fst conn) (snd conn))
     else if JsString.endsWith "/health" (req_pathname request) then
       w <- get ;;
       ret (JsonResponse 200
              (BodyHealth (storage_id env) (lastActivity (state w))
                 (length (conversationHistory (state w)))
                 (length (activeWorkflows (state w)))))
     else if JsString.endsWith "/history" (req_pathname request) then
       w <- get ;;
       ret (JsonResponse 200
              (BodyHistory (conversationHistory (state w))
                 (length (conversationHistory (state w)))))
     else if (JsString.endsWith "/message" (req_pathname request)
              && String.eqb (req_method request) "POST")%bool then
       match req_json request with
       | inl e => throw e
       | inr (content, userId) =>
           response <- processMessage content userId ;;
           ret (JsonResponse 200 (BodyMessage response))
       end
     else if JsString.endsWith "/context" (req_pathname request) then
       w <- get ;;
       ret (JsonResponse 200 (BodyContext (userContext (state w))))
     else if (JsString.endsWith "/clear" (req_pathname request)
              && String.eqb (req_method request) "POST")%bool then
       clearHistory ;;;
       ret (JsonResponse 200 (BodyInfo "History cleared"))
     else
       ret (JsonResponse 200 (BodyInfo "AI Agent Durable Object - Phase 2")))
    (fun error => ret (JsonResponse 500 (BodyError error))).

End WithEnv.
End AIAgent.

(* ===================================================================== *)
(** * The stateless service: [class AIService] *)
(* ===================================================================== *)

Module AIService.
Section WithEnv.

Variable env : Env.

Definition LLM_MODEL : string := "@cf/meta/llama-3.3-70b-instruct-fp8-fast".
Definition FALLBACK_MODEL : string := "@cf/meta/llama-3.1-8b-instruct".

Definition APOLOGY : string :=
  "I apologize, but I encountered an error generating a response. Please try again.".

(** [generateWithFallback]: one call of the fallback model; the messages
    and options go to the binding unchanged. *)
Definition generateWithFallback : M string :=
  try_catch
    (response <- AIAgent.AI_run env FALLBACK_MODEL ;;
     match resp_response response with
     | Some r => if JsString.truthy r then ret r
                 else throw "Fallback model also failed"
     | None => throw "Fallback model also failed"
     end)
    (fun _ => ret APOLOGY).

(** [generateChatCompletion]: the primary model with [retry], then the
    fallback. *)
Definition generateChatCompletion : M string :=
  try_catch
    (response <- AIAgent.retry (AIAgent.AI_run env LLM_MODEL) 3 1000 ;;
     match resp_response response with
     | Some r => if JsString.truthy r then ret r
                 else throw "Invalid AI response format"
     | None => throw "Invalid AI response format"
     end)
    (fun _ => generateWithFallback).

(** The answer of [moderateContent]. *)
Record Moderation := { safe : bool; reason : option string }.

(** [moderateContent]: ask the model, read the verdict off the start of its
    answer. *)
Definition moderateContent (content : string) : M Moderation :=
  try_catch
    (result <- generateChatCompletion ;;
     if JsString.startsWith "SAFE" result
     then ret {| safe := true; reason := None |}
     else ret {| safe := false;
                 reason := Some (JsString.trim
                                   (JsString.remove_first "UNSAFE:" result)) |})
    (fun _ => ret {| safe := true; reason := None |}).

End WithEnv.
End AIService.

(* ===================================================================== *)
(** * The tool registry: [class ToolRegistry] *)
(* ===================================================================== *)

Module ToolRegistry.

(** ** JavaScript values that travel as tool parameters *)

#[local] Set Warnings "-register-all".

Inductive JsValue :=
  | JsUndefined
  | JsNull
  | JsBool (b : bool)
  | JsNumber (n : Z)
  | JsStr (s : string)
  | JsArray (items : list JsValue)
  | JsObject (fields : list (string * JsValue)).

(** [Array.isArray(value) ? 'array' : typeof value] *)
Definition actualType (value : JsValue) : string :=
  match value with
  | JsUndefined => "undefined"
  | JsNull => "object"
  | JsBool _ => "boolean"
  | JsNumber _ => "number"
  | JsStr _ => "string"
  | JsArray _ => "array"
  | JsObject _ => "object"
  end.

(** The comparison of [Array.prototype.includes]: primitives by value; an
    array or object of the parameters is never the very object that a
    schema lists. *)
Definition same_value_zero (a b : JsValue) : bool :=
  match a, b with
  | JsUndefined, JsUndefined => true
  | JsNull, JsNull => true
  | JsBool x, JsBool y => Bool.eqb x y
  | JsNumber x, JsNumber y => Z.eqb x y
  | JsStr x, JsStr y => String.eqb x y
  | _, _ => false
  end.

Definition includes (l : list JsValue) (v : JsValue) : bool :=
  existsb (fun x => same_value_zero x v) l.

(** [String(v)] as [Array.prototype.join] applies it to an element:
    [null] and [undefined] print as the empty string. *)
Fixpoint join_element (v : JsValue) : string :=
  match v with
  | JsUndefined => ""
  | JsNull => ""
  | JsBool true => "true"
  | JsBool false => "false"
  | JsNumber n => JsString.of_Z n
  | JsStr s => s
  | JsArray items => JsString.join "," (map join_element items)
  | JsObject _ => "[object Object]"
  end.

(** ** [types/tools.ts] *)

(** The schema of one property, with the keywords the validator reads. *)
Record PropSchema := {
  p_type : option string;
  p_minLength : option Z;
  p_maxLength : option Z;
  p_minimum : option Z;
  p_maximum : option Z;
  p_enum : option (list JsValue);
}.

(** [properties] lists its entries in the order of [Object.entries]. *)
Record JSONSchema := {
  s_type : string;
  s_properties : option (list (string * PropSchema));
  s_required : option (list string);
}.

Record ToolResult := {
  success : bool;
  data : option JsValue;
  error : option string;
  executionTime : option Z;
}.

Record ToolContext := {
  ctx_userId : option string;
  ctx_agentId : string;
  ctx_timestamp : Z;
}.

Record RateLimit := { calls : Z; period : Z }.

(** A parameter object, given by its own properties.  Its prototype is
    [Object.prototype], as for an object literal and for what [JSON.parse]
    returns. *)
Abbreviation Params := (gmap string JsValue).

(** The property names such an object inherits from [Object.prototype]:
    those of ECMAScript with the legacy ones of its Annex B. *)
Definition Object_prototype_keys : list string :=
  ["constructor"; "__defineGetter__"; "__defineSetter__"; "hasOwnProperty";
   "__lookupGetter__"; "__lookupSetter__"; "isPrototypeOf";
   "propertyIsEnumerable"; "toString"; "valueOf"; "__proto__";
   "toLocaleString"].

Definition inherited (key : string) : bool :=
  existsb (String.eqb key) Object_prototype_keys.

(** [key in params]: an own property or an inherited one. *)
Definition has_property (params : Params) (key : string) : bool :=
  match params !! key with
  | Some _ => true
  | None => inherited key
  end.

(** [Array.isArray(value) ? 'array' : typeof value] for the value that
    [params[key]] reads through the prototype: [Object.prototype] itself
    for [__proto__], a function for every other inherited name. *)
Definition inherited_type (key : string) : string :=
  if String.eqb key "__proto__" then "object" else "function".

(** The [filters] argument of [getExecutionLogs]. *)
Record LogFilters := {
  f_toolName : option string;
  f_agentId : option string;
  f_userId : option string;
  f_limit : option Z;
}.

Section WithWorld.

(** What the outside world answers to a tool body during one call. *)
Variable X : Type.

(** A tool.  The body [execute] is any function of the parameters, the
    context and the world's answers; it returns a result or throws.
    [Thrown message] is a thrown value other than [null] and [undefined]
    whose [message] property reads [message]; a value without a message
    counts as the empty message. *)
Record Tool := {
  name : string;
  description : string;
  category : string;
  parameters : JSONSchema;
  execute : Params -> ToolContext -> X -> Outcome ToolResult;
  rateLimit : option RateLimit;
}.

Record ToolExecutionLog := {
  log_id : string;
  log_toolName : string;
  log_agentId : string;
  log_userId : option string;
  log_parameters : Params;
  log_result : ToolResult;
  log_timestamp : Z;
  log_duration : Z;
}.

Record Tracker := { trk_calls : Z; trk_resetTime : Z }.

Record Registry := {
  tools : gmap string Tool;
  executionLogs : list ToolExecutionLog;
  rateLimitTracker : gmap string Tracker;
}.

(** What one call of [execute] reads from outside: [Date.now()] in
    [checkRateLimit], before and after the body, [crypto.randomUUID()],
    and the world's answers to the body. *)
Record CallEnv := {
  now : Z;
  startTime : Z;
  endTime : Z;
  uuid : string;
  world : X;
}.

Definition empty_registry : Registry :=
  {| tools := ∅; executionLogs := []; rateLimitTracker := ∅ |}.

(** ** register *)

(** [validateTool]; a [Tool] always has a schema and a body, so only the
    truthiness of [name] and [description] can fail. *)
Definition validateTool (tool : Tool) : option string :=
  if negb (JsString.truthy (name tool)) then Some "Tool must have a valid name"
  else if negb (JsString.truthy (description tool))
       then Some "Tool must have a description"
       else None.

Definition register (tool : Tool) (reg : Registry) : Outcome unit * Registry :=
  match tools reg !! name tool with
  | Some _ => (Thrown ("Tool '" +:+ name tool +:+ "' is already registered"), reg)
  | None =>
      match validateTool tool with
      | Some e => (Thrown e, reg)
      | None =>
          (Returned tt,
           {| tools := <[name tool := tool]> (tools reg);
              executionLogs := executionLogs reg;
              rateLimitTracker := rateLimitTracker reg |})
      end
  end.

Definition clear (reg : Registry) : Registry := empty_registry.

(** ** validateParameters *)

(** The first loop: the first required name that is not [in params]. *)
Fixpoint check_required (required : list string) (params : Params)
    : option string :=
  match required with
  | [] => None
  | requiredParam :: rest =>
      if has_property params requiredParam
      then check_required rest params
      else Some ("Missing required parameter: " +:+ requiredParam)
  end.

(** [prop.minLength && ...]: a bound that is absent or [0] is falsy. *)
Definition truthy_bound (b : option Z) : option Z :=
  match b with
  | Some n => if n =? 0 then None else Some n
  | None => None
  end.

(** [if (prop.type)]: an absent or empty type is falsy. *)
Definition truthy_type (t : option string) : option string :=
  match t with
  | Some s => if JsString.truthy s then Some s else None
  | None => None
  end.

(** The type validation, given the [actualType] of the value read. *)
Definition check_actual_type (key : string) (prop : PropSchema)
    (actual : string) : option string :=
  match truthy_type (p_type prop) with
  | Some t =>
      if negb (String.eqb actual t)
      then Some ("Parameter '" +:+ key +:+ "' must be of type '" +:+ t
                 +:+ "', got '" +:+ actual +:+ "'")
      else None
  | None => None
  end.

Definition check_type (key : string) (prop : PropSchema) (value : JsValue)
    : option string :=
  check_actual_type key prop (actualType value).

(** [a] if it reports an error, otherwise [b]: the order of the [return]s. *)
Definition or_else (a b : option string) : option string :=
  match a with Some e => Some e | None => b end.

(** [prop.type === t] *)
Definition type_is (prop : PropSchema) (t : string) : bool :=
  match p_type prop with
  | Some s => String.eqb s t
  | None => false
  end.

Definition check_string (key : string) (prop : PropSchema) (value : JsValue)
    : option string :=
  match value with
  | JsStr s =>
      if type_is prop "string" then
        let len := Z.of_nat (String.length s) in
        or_else
          (match truthy_bound (p_minLength prop) with
           | Some m =>
               if len <? m
               then Some ("Parameter '" +:+ key +:+ "' must be at least "
                          +:+ JsString.of_Z m +:+ " characters")
               else None
           | None => None
           end)
          (match truthy_bound (p_maxLength prop) with
           | Some m =>
               if len >? m
               then Some ("Parameter '" +:+ key +:+ "' must be at most "
                          +:+ JsString.of_Z m +:+ " characters")
               else None
           | None => None
           end)
      else None
  | _ => None
  end.

Definition check_number (key : string) (prop : PropSchema) (value : JsValue)
    : option string :=
  match value with
  | JsNumber n =>
      if type_is prop "number" then
        or_else
          (match p_minimum prop with
           | Some m =>
               if n <? m
               then Some ("Parameter '" +:+ key +:+ "' must be at least "
                          +:+ JsString.of_Z m)
               else None
           | None => None
           end)
          (match p_maximum prop with
           | Some m =>
               if n >? m
               then Some ("Parameter '" +:+ key +:+ "' must be at most "
                          +:+ JsString.of_Z m)
               else None
           | None => None
           end)
      else None
  | _ => None
  end.

Definition check_enum (key : string) (prop : PropSchema) (value : JsValue)
    : option string :=
  match p_enum prop with
  | Some allowed =>
      if negb (includes allowed value)
      then Some ("Parameter '" +:+ key +:+ "' must be one of: "
                 +:+ JsString.join ", " (map join_element allowed))
      else None
  | None => None
  end.

(** The checks on a declared property that [params] only inherits.  The
    inherited value is neither a string nor a number, so the length and
    range checks do not apply, and it is none of the values that a schema
    lists, so an [enum] rejects it. *)
Definition check_inherited (key : string) (prop : PropSchema)
    : option string :=
  or_else (check_actual_type key prop (inherited_type key))
    (match p_enum prop with
     | Some allowed =>
         Some ("Parameter '" +:+ key +:+ "' must be one of: "
               +:+ JsString.join ", " (map join_element allowed))
     | None => None
     end).

(** The body of the second loop for one declared property:
    [if (key in params) { const value = params[key]; ... }]. *)
Definition check_property (key : string) (prop : PropSchema) (params : Params)
    : option string :=
  match params !! key with
  | Some value =>
      or_else (check_type key prop value)
        (or_else (check_string key prop value)
           (or_else (check_number key prop value)
              (check_enum key prop value)))
  | None =>
      if inherited key then check_inherited key prop else None
  end.

Fixpoint check_properties (props : list (string * PropSchema)) (params : Params)
    : option string :=
  match props with
  | [] => None
  | (key, prop) :: rest =>
      or_else (check_property key prop params) (check_properties rest params)
  end.

(** [validateParameters]: [None] is the source's [null]. *)
Definition validateParameters (params : Params) (schema : JSONSchema)
    : option string :=
  or_else
    (match s_required schema with
     | Some required =>
         if String.eqb (s_type schema) "object"
         then check_required required params
         else None
     | None => None
     end)
    (match s_properties schema with
     | Some props => check_properties props params
     | None => None
     end).

(** ** checkRateLimit *)

Definition set_rateLimitTracker (t : gmap string Tracker) (reg : Registry)
    : Registry :=
  {| tools := tools reg; executionLogs := executionLogs reg;
     rateLimitTracker := t |}.

Definition set_executionLogs (l : list ToolExecutionLog) (reg : Registry)
    : Registry :=
  {| tools := tools reg; executionLogs := l;
     rateLimitTracker := rateLimitTracker reg |}.

(** A fresh window: [{ calls: 1, resetTime: now + period * 1000 }]. *)
Definition fresh_window (now period : Z) : Tracker :=
  {| trk_calls := 1; trk_resetTime := now + period * 1000 |}.

Definition checkRateLimit (toolName : string) (maxCalls period now : Z)
    (reg : Registry) : bool * Registry :=
  match rateLimitTracker reg !! toolName with
  | None =>
      (true, set_rateLimitTracker
               (<[toolName := fresh_window now period]> (rateLimitTracker reg)) reg)
  | Some tracker =>
      if now >? trk_resetTime tracker then
        (true, set_rateLimitTracker
                 (<[toolName := fresh_window now period]> (rateLimitTracker reg)) reg)
      else if trk_calls tracker >=? maxCalls then (false, reg)
      else
        (true, set_rateLimitTracker
                 (<[toolName := {| trk_calls := trk_calls tracker + 1;
                                   trk_resetTime := trk_resetTime tracker |}]>
                    (rateLimitTracker reg)) reg)
  end.

(** ** logExecution *)

(** [push], then [shift] once when more than 1000 entries are held. *)
Definition logExecution (log : ToolExecutionLog) (reg : Registry) : Registry :=
  let logs := executionLogs reg ++ [log] in
  set_executionLogs
    (if (1000 <? length logs)%nat then tail logs else logs) reg.

(** ** execute *)

Definition failure (message : string) (time : option Z) : ToolResult :=
  {| success := false; data := None; error := Some message;
     executionTime := time |}.

(** [error.message || 'Tool execution failed'] *)
Definition message_or_default (message : string) : string :=
  if JsString.truthy message then message else "Tool execution failed".

(** The part of [execute] after the rate-limit check. *)
Definition validate_and_run (tool : Tool) (name_ : string) (params : Params)
    (context : ToolContext) (env : CallEnv) (reg : Registry)
    : ToolResult * Registry :=
  match validateParameters params (parameters tool) with
  | Some validationError =>
      (failure ("Parameter validation failed: " +:+ validationError) None, reg)
  | None =>
      match execute tool params context (world env) with
      | Returned result =>
          let duration := endTime env - startTime env in
          ({| success := success result; data := data result;
              error := error result; executionTime := Some duration |},
           logExecution
             {| log_id := uuid env; log_toolName := name_;
                log_agentId := ctx_agentId context;
                log_userId := ctx_userId context;
                log_parameters := params; log_result := result;
                log_timestamp := ctx_timestamp context;
                log_duration := duration |} reg)
      | Thrown message =>
          let duration := endTime env - startTime env in
          (failure (message_or_default message) (Some duration), reg)
      end
  end.

(** [ToolRegistry.execute] on a parameter object; named [execute_tool] here
    because [execute] is the body of a [Tool].  Two ways in which the
    promise of [execute] is rejected lie outside this function: a [params]
    that is not an object, on which the [in] of [validateParameters] throws,
    and a body that throws [null] or [undefined], on which the handler's
    [error.message] throws. *)
Definition execute_tool (name_ : string) (params : Params)
    (context : ToolContext) (env : CallEnv) (reg : Registry)
    : ToolResult * Registry :=
  match tools reg !! name_ with
  | None => (failure ("Tool '" +:+ name_ +:+ "' not found") None, reg)
  | Some tool =>
      match rateLimit tool with
      | Some limit =>
          let (canExecute, reg') :=
            checkRateLimit name_ (calls limit) (period limit) (now env) reg in
          if canExecute
          then validate_and_run tool name_ params context env reg'
          else (failure ("Rate limit exceeded for tool '" +:+ name_
                         +:+ "'. Please try again later.") None, reg')
      | None => validate_and_run tool name_ params context env reg
      end
  end.

(** ** Sequences of operations on a registry *)

Inductive Op :=
  | OpRegister (tool : Tool)
  | OpExecute (name_ : string) (params : Params) (context : ToolContext)
      (env : CallEnv)
  | OpClear.

Definition step (reg : Registry) (op : Op) : Registry :=
  match op with
  | OpRegister tool => snd (register tool reg)
  | OpExecute n p c e => snd (execute_tool n p c e reg)
  | OpClear => clear reg
  end.

(** The registry after [ops], starting from a new [ToolRegistry]. *)
Definition run (ops : list Op) : Registry :=
  fold_left step ops empty_registry.

(** ** registerAll, get, getExecutionLogs *)

(** [registerAll]: the loop stops at the first [register] that throws. *)
Fixpoint registerAll (new_tools : list Tool) (reg : Registry)
    : Outcome unit * Registry :=
  match new_tools with
  | [] => (Returned tt, reg)
  | tool :: rest =>
      match register tool reg with
      | (Returned _, reg') => registerAll rest reg'
      | (Thrown e, reg') => (Thrown e, reg')
      end
  end.

(** [get(name)] *)
Definition get_tool (name_ : string) (reg : Registry) : option Tool :=
  tools reg !! name_.

(** [logs.slice(start)]: a negative [start] counts from the end. *)
Definition slice_from {A} (start : Z) (l : list A) : list A :=
  let len := Z.of_nat (length l) in
  if start <? 0 then drop (Z.to_nat (Z.max (len + start) 0)) l
  else drop (Z.to_nat (Z.min start len)) l.

(** [if (filters?.field) logs = logs.filter(...)]: an absent or empty
    string does not filter. *)
Definition filter_by (wanted : option string)
    (field : ToolExecutionLog -> option string)
    (logs : list ToolExecutionLog) : list ToolExecutionLog :=
  match wanted with
  | Some v =>
      if JsString.truthy v
      then filter (fun log => field log = Some v) logs
      else logs
  | None => logs
  end.

Definition getExecutionLogs (filters : option LogFilters) (reg : Registry)
    : list ToolExecutionLog :=
  match filters with
  | None => executionLogs reg
  | Some f =>
      let logs := executionLogs reg in
      let logs := filter_by (f_toolName f) (fun log => Some (log_toolName log)) logs in
      let logs := filter_by (f_agentId f) (fun log => Some (log_agentId log)) logs in
      let logs := filter_by (f_userId f) log_userId logs in
      match f_limit f with
      | Some limit => if limit =? 0 then logs else slice_from (- limit) logs
      | None => logs
      end
  end.

(** Whether the rate-limit check of [execute] lets the call through. *)
Definition rate_limit_passes (tool : Tool) (name_ : string) (env : CallEnv)
    (reg : Registry) : bool :=
  match rateLimit tool with
  | Some limit =>
      fst (checkRateLimit name_ (calls limit) (period limit) (now env) reg)
  | None => true
  end.

End WithWorld.

Arguments name {X} _.
Arguments description {X} _.
Arguments parameters {X} _.
Arguments execute {X} _ _ _ _.
Arguments rateLimit {X} _.
Arguments tools {X} _.
Arguments executionLogs {X} _.
Arguments rateLimitTracker {X} _.
Arguments now {X} _.
Arguments startTime {X} _.
Arguments endTime {X} _.
Arguments uuid {X} _.
Arguments world {X} _.
Arguments empty_registry {X}.
Arguments register {X} _ _.
Arguments checkRateLimit {X} _ _ _ _ _.
Arguments logExecution {X} _ _.
Arguments validate_and_run {X} _ _ _ _ _ _.
Arguments execute_tool {X} _ _ _ _ _.
Arguments rate_limit_passes {X} _ _ _ _.
Arguments run {X} _.
Arguments step {X} _ _.
Arguments OpRegister {X} _.
Arguments OpExecute {X} _ _ _ _.
Arguments OpClear {X}.
Arguments registerAll {X} _ _.
Arguments get_tool {X} _ _.
Arguments getExecutionLogs {X} _ _.

End ToolRegistry.

(* ===================================================================== *)
(** * Vocabulary of the statements *)
(* ===================================================================== *)

Import AIAgent.

(** The prompt segment a history message becomes. *)
Definition prompt_of (msg : Message) : PromptMessage :=
  {| pm_role := msg_role msg; pm_content := msg_content msg |}.

(** Sum of the estimated token counts of a list of prompt segments. *)
Definition segments_tokens (segments : list PromptMessage) : Z :=
  foldr (fun m acc => Helpers.estimateTokenCount (pm_content m) + acc) 0 segments.

(** A memory whose content is [n] times the letter a. *)
Definition memory_of_size (n : Z) : Memory :=
  {| mem_id := "m1"; mem_type := "conversation";
     mem_content := JsString.repeat "a" (Z.to_nat n); mem_embedding := [];
     mem_timestamp := 0; mem_userId := "u"; mem_importance := 1 |}.

(** A user message whose content is [n] times the letter a. *)
Definition message_of_size (n : Z) : Message :=
  {| msg_id := "1-x"; msg_role := user;
     msg_content := JsString.repeat "a" (Z.to_nat n);
     msg_timestamp := 1; msg_metadata := None |}.

(** The weakest precondition of a computation: [Q] holds of the outcome and
    the world that [c] produces from [w]. *)
Definition wp {A} (c : M A) (w : World) (Q : Outcome A -> World -> Prop) : Prop :=
  Q (fst (c w)) (snd (c w)).

(** The effects the agent's message pipeline can cause. *)
Definition agent_effect (e : Effect) : Prop :=
  e = EffAIRun EMBEDDING_MODEL \/ e = EffAIRun LLM_MODEL
  \/ exists ms, e = EffSleep ms.

(** The traces of the inference step: up to three calls of the primary
    model, with pauses of 1000 ms and 2000 ms between them. *)
Definition llm_attempts (tr : list Effect) : Prop :=
  tr = [EffAIRun LLM_MODEL]
  \/ tr = [EffAIRun LLM_MODEL; EffSleep 1000; EffAIRun LLM_MODEL]
  \/ tr = [EffAIRun LLM_MODEL; EffSleep 1000; EffAIRun LLM_MODEL;
           EffSleep 2000; EffAIRun LLM_MODEL].

(** [w'] is [w] after some external interactions whose trace satisfies [P]:
    sockets, connections, both SQL tables and the cached history are the
    same. *)
Record advances (P : list Effect -> Prop) (w w' : World) : Prop := {
  adv_interactions : (interactions w <= interactions w')%nat;
  adv_sockets : sockets w' = sockets w;
  adv_connections : activeConnections w' = activeConnections w;
  adv_workflows : workflows_table w' = workflows_table w;
  adv_messages : messages_table w' = messages_table w;
  adv_history : conversationHistory (state w') = conversationHistory (state w);
  adv_active : activeWorkflows (state w') = activeWorkflows (state w);
  adv_trace : exists tr, trace w' = trace w ++ tr /\ P tr;
}.

(** A rejection of the SQL store or of the Durable Object storage. *)
Definition persistence_error (env : Env) (e : string) : Prop :=
  exists k, sql_exec env k = Some e \/ storage_put env k = Some e.

(** The trace of one completed turn: an embedding call for storing the user
    message, one for the memory search, the inference attempts, and an
    embedding call for storing the reply. *)
Definition turn_trace (tr : list Effect) : Prop :=
  exists attempts,
    llm_attempts attempts
    /\ tr = [EffAIRun EMBEDDING_MODEL; EffAIRun EMBEDDING_MODEL]
            ++ attempts ++ [EffAIRun EMBEDDING_MODEL].

(** [slice(-MAX_HISTORY_MESSAGES)] when longer, as [trimHistory] applies it. *)
Definition trimmed (h : list Message) : list Message :=
  if (MAX_HISTORY_MESSAGES <? length h)%nat
  then drop (length h - MAX_HISTORY_MESSAGES) h
  else h.

(** What a completed turn of [processMessage] leaves behind: the user
    message [um] and the reply [am], both appended to the SQL table and to
    the cached history. *)
Record turn (env : Env) (content : string) (w : World) (um am : Message)
    (w' : World) : Prop := {
  turn_user_role : msg_role um = user;
  turn_user_content : msg_content um = Helpers.sanitizeInput content;
  turn_times :
    exists ku ka, (ku < ka)%nat
      /\ msg_timestamp um = date_now env ku
      /\ msg_timestamp am = date_now env ka;
  turn_assistant_role : msg_role am = assistant;
  turn_content_nonempty : JsString.truthy (msg_content am) = true;
  turn_content_origin :
    msg_content am = APOLOGY
    \/ exists k resp,
         ai_run env k = AIResolves resp
         /\ resp_response resp = Some (msg_content am);
  turn_persisted : messages_table w' = messages_table w ++ [um; am];
  turn_history :
    conversationHistory (state w')
    = trimmed (conversationHistory (state w) ++ [um; am]);
  turn_trace_shape : exists tr, trace w' = trace w ++ tr /\ turn_trace tr;
}.

(** The outcome of [processMessage]: a completed turn, or a persistence
    error; in both cases no socket is touched and only the embedding model
    and the primary model are called. *)
Definition processMessage_post (env : Env) (content : string) (w : World)
    (r : Outcome Message) (w' : World) : Prop :=
  sockets w' = sockets w
  /\ (exists tr, trace w' = trace w ++ tr /\ Forall agent_effect tr)
  /\ match r with
     | Returned am => exists um, turn env content w um am w'
     | Thrown e => persistence_error env e
     end.

(** The texts that [streamResponse] puts into its [token] frames for the
    given words: every word but the last is followed by a space. *)
Fixpoint stream_tokens (words : list string) : list string :=
  match words with
  | [] => []
  | w :: rest =>
      (w +:+ (match rest with [] => "" | _ :: _ => " " end)) :: stream_tokens rest
  end.

(** The frames handed to socket [ws] between [w] and [w'] are [frames];
    every other socket holds what it held. *)
Definition sent (ws : nat) (frames : list WsMessage) (w w' : World) : Prop :=
  sockets w' !! ws = (fun q => q ++ frames) <$> (sockets w !! ws)
  /\ forall ws', ws' <> ws -> sockets w' !! ws' = sockets w !! ws'.

(** The frames of a chat turn that completed: the typing indicator, the
    tokens whose texts concatenate to the content of the persisted reply
    [am], and the completion frame naming [am]. *)
Definition completed_turn_frames (am : Message) (frames : list WsMessage) : Prop :=
  exists t tokens t',
    frames = WsTyping t :: tokens ++ [WsMessageComplete (msg_id am) t']
    /\ Forall (fun m => is_token m = true) tokens
    /\ String.concat "" (token_texts tokens) = msg_content am.

(** The frames of a chat turn that failed on the persistence error [e]. *)
Definition failed_turn_frames (e : string) (frames : list WsMessage) : Prop :=
  exists t t',
    frames = [WsTyping t; WsError "Failed to process message" (Some e) t'].

(** The outcome of [handleChatMessage] on socket [ws]. *)
Definition handleChatMessage_post (env : Env) (ws : nat) (w : World)
    (r : Outcome unit) (w' : World) : Prop :=
  r = Returned tt
  /\ exists frames,
       sent ws frames w w'
       /\ ((exists um am,
              completed_turn_frames am frames
              /\ msg_role am = assistant
              /\ messages_table w' = messages_table w ++ [um; am])
           \/ (exists e,
                 failed_turn_frames e frames /\ persistence_error env e)).

(** ** Concrete environments *)

Definition sample_response : AIResponse :=
  {| resp_response := Some "Hello there"; resp_data0 := Some [1; 2] |}.

(** Every collaborator answers, and the clock advances by one millisecond
    per interaction. *)
Definition working_env : Env :=
  {| date_now := fun k => 1700000000000 + Z.of_nat k;
     math_random := fun _ => "k3x9q2a";
     ai_run := fun _ => AIResolves sample_response;
     vectorize_upsert := fun _ => None;
     vectorize_query := fun _ => inr [];
     sql_exec := fun _ => None;
     storage_put := fun _ => None;
     storage_id := "agent-1" |}.


(** As [working_env], but every call of Workers AI is rejected. *)
Definition inference_down_env : Env :=
  {| date_now := date_now working_env;
     math_random := math_random working_env;
     ai_run := fun _ => AIRejects "AI Error";
     vectorize_upsert := vectorize_upsert working_env;
     vectorize_query := vectorize_query working_env;
     sql_exec := sql_exec working_env;
     storage_put := storage_put working_env;
     storage_id := storage_id working_env |}.

(** The world a computation leaves. *)
Definition exec {A} (c : M A) (w : World) : World := snd (c w).

(** A fresh agent with one, respectively two, attached WebSocket connections
    (sockets 0 and 1). *)
Definition one_connection : World :=
  exec (handleWebSocket working_env) (initial_world 0).

Definition two_connections : World :=
  exec (handleWebSocket working_env) one_connection.

(** A fresh agent holding one workflow, already completed. *)
Definition completed_workflow_world : World :=
  set_state
    (set_activeWorkflows
       [{| wf_id := "1-a"; wf_name := "job"; wf_status := "completed" |}]
       (initial_state 0))
    (set_workflows_table
       [{| row_id := "1-a"; row_name := "job"; row_status := "completed";
           row_params := "{}"; row_result := None; row_created_at := 1;
           row_completed_at := Some 2 |}]
       (initial_world 0)).

(** ** Vocabulary of the tool registry *)

Import ToolRegistry.

(** The log after [push] and the eviction of [logExecution]: beyond 1000
    entries the oldest one, at the head, is dropped. *)
Definition evict_oldest (logs : list ToolExecutionLog)
    : list ToolExecutionLog :=
  if (1000 <? length logs)%nat then tail logs else logs.


(** What [execute] returns when the body returned [result]:
    [{ ...result, executionTime: duration }]. *)
Definition timed {X} (result : ToolResult) (env : CallEnv X) : ToolResult :=
  {| success := success result; data := data result; error := error result;
     executionTime := Some (endTime env - startTime env) |}.

(** A registered, rate-limited tool whose parameters validate and whose
    body succeeds whatever the world answers. *)
Record callable {X} (reg : Registry X) (tool : Tool X) (n : string)
    (limit : RateLimit) (params : Params) (ctx : ToolContext) : Prop := {
  callable_registered : tools reg !! n = Some tool;
  callable_limit : rateLimit tool = Some limit;
  callable_valid : validateParameters params (parameters tool) = None;
  callable_body :
    forall x, exists result,
      execute tool params ctx x = Returned result /\ success result = true;
}.

Definition sample_context : ToolContext :=
  {| ctx_userId := Some "user_test"; ctx_agentId := "agent_test";
     ctx_timestamp := 1700000000000 |}.

(** A call made at time [t] whose body takes 5 ms; the log id it draws is
    the decimal numeral of [t]. *)
Definition call_at (t : Z) : CallEnv unit :=
  {| now := t; startTime := t; endTime := t + 5; uuid := JsString.of_Z t;
     world := tt |}.

(** A tool without parameters and without rate limit that always succeeds. *)
Definition stats_tool : Tool unit :=
  {| name := "stats_tool"; description := "Tool for stats";
     category := "utility";
     parameters := {| s_type := "object"; s_properties := Some [];
                      s_required := None |};
     execute := fun _ _ _ =>
       Returned {| success := true; data := None; error := None;
                   executionTime := None |};
     rateLimit := None |}.

(** Registering [stats_tool] and calling it at the times [0 .. n-1]. *)
Definition calls_of_stats_tool (n : nat) : list (Op unit) :=
  OpRegister stats_tool
  :: map (fun i => OpExecute "stats_tool" ∅ sample_context (call_at (Z.of_nat i)))
       (seq 0 n).

Definition ok_result : ToolResult :=
  {| success := true; data := Some (JsBool true); error := None;
     executionTime := None |}.

(** A tool without parameters that always succeeds, limited to two calls
    per 60 seconds. *)
Definition rate_limited_tool : Tool unit :=
  {| name := "rate_limited"; description := "Rate limited tool";
     category := "utility";
     parameters := {| s_type := "object"; s_properties := Some [];
                      s_required := None |};
     execute := fun _ _ _ => Returned ok_result;
     rateLimit := Some {| calls := 2; period := 60 |} |}.

(** A tool whose body always throws. *)
Definition error_tool : Tool unit :=
  {| name := "error_tool"; description := "Always fails";
     category := "utility";
     parameters := {| s_type := "object"; s_properties := Some [];
                      s_required := None |};
     execute := fun _ _ _ => Thrown "Tool error";
     rateLimit := None |}.

(** A tool with one required string parameter of at least 3 characters; the
    body returns the parameter object it was given, as a list of entries. *)
Definition echo_tool : Tool unit :=
  {| name := "echo"; description := "Returns its parameters";
     category := "utility";
     parameters :=
       {| s_type := "object";
          s_properties :=
            Some [("text", {| p_type := Some "string"; p_minLength := Some 3;
                              p_maxLength := None; p_minimum := None;
                              p_maximum := None; p_enum := None |})];
          s_required := Some ["text"] |};
     execute := fun params _ _ =>
       Returned {| success := true;
                   data := Some (JsObject (map_to_list params));
                   error := None; executionTime := None |};
     rateLimit := None |}.

(** A registry holding exactly the given tool. *)
Definition registry_with (tool : Tool unit) : Registry unit :=
  snd (register tool empty_registry).


(** ** Vocabulary of the further properties *)

(** [w'] differs from [w] at most in the interaction count, the trace and
    the vector index: the agent state, both SQL tables, the stored state and
    the sockets are the same. *)
Record untouched (w w' : World) : Prop := {
  same_state : state w' = state w;
  same_messages : messages_table w' = messages_table w;
  same_workflows : workflows_table w' = workflows_table w;
  same_storage : storage_state w' = storage_state w;
  same_sockets : sockets w' = sockets w;
  same_connections : activeConnections w' = activeConnections w;
}.

(** The trace of [failures] failed attempts on [model], the first of them
    being attempt number [i]: each is followed by a pause of
    [delayMs * 2 ^ i] that doubles from one attempt to the next. *)
Fixpoint backoff_trace (model : string) (delayMs : Z) (i failures : nat)
    : list Effect :=
  match failures with
  | O => []
  | S failures' =>
      EffAIRun model :: EffSleep (delayMs * 2 ^ Z.of_nat i)
      :: backoff_trace model delayMs (S i) failures'
  end.

(** The milliseconds slept in a trace. *)
Fixpoint slept (tr : list Effect) : Z :=
  match tr with
  | [] => 0
  | EffSleep ms :: rest => ms + slept rest
  | EffAIRun _ :: rest => slept rest
  end.

(** What an answer of the binding is worth to [generateAIResponse]. *)
Definition text_or_apology (resp : AIResponse) : string :=
  match resp_response resp with
  | Some text => if JsString.truthy text then text else APOLOGY
  | None => APOLOGY
  end.

(** The world after [calls] further interactions that left the trace [tr]
    and nothing else. *)
Definition after_calls (calls : nat) (tr : list Effect) (w : World) : World :=
  set_interactions (interactions w + calls) (set_trace (trace w ++ tr) w).

(** What the ['message'] listener hands to the sender's socket for a parsed
    frame [data], between [w] and [w']. *)
Definition reply_frames (env : Env) (data : ClientMessage) (w w' : World)
    (frames : list WsMessage) : Prop :=
  match data with
  | CMessage _ _ => exists t rest, frames = WsTyping t :: rest /\ rest <> []
  | CPing => exists t, frames = [WsPong t] /\ state w' = state w
  | CGetHistory =>
      exists t,
        frames = [WsHistory (conversationHistory (state w)) t]
        /\ state w' = state w
  | CClearHistory =>
      (exists t,
         frames = [WsHistoryCleared "Conversation history cleared" t]
         /\ messages_table w' = []
         /\ conversationHistory (state w') = [])
      \/ (exists e t, frames = [WsError e None t] /\ persistence_error env e)
  | COther _ => frames = [] /\ w' = w
  end.

(** A [GET] of the message route, without a body. *)
Definition get_message_request : Request :=
  {| req_upgrade := None; req_pathname := "/agent/message";
     req_method := "GET"; req_json := inl "Unexpected end of JSON input" |}.

(** A world whose workflow table and cache hold one pending workflow. *)
Definition pending_workflow_world : World :=
  set_workflows_table
    [{| row_id := "1-a"; row_name := "job"; row_status := "pending";
        row_params := "{}"; row_result := None;
        row_created_at := 1; row_completed_at := None |}]
    (set_state
       (set_activeWorkflows
          [{| wf_id := "1-a"; wf_name := "job"; wf_status := "pending" |}]
          (initial_state 0))
       (initial_world 0)).

(** What every registry reached by [register], [execute] and [clear] keeps:
    a tool is stored under its own name, with a name and a description that
    are not empty; a rate-limit tracker belongs to a registered tool that
    declares a rate limit and counts at least one call; every log entry
    names a registered tool. *)
Record well_formed {X} (reg : Registry X) : Prop := {
  inv_tools :
    forall n tool,
      tools reg !! n = Some tool ->
      name tool = n
      /\ JsString.truthy n = true
      /\ JsString.truthy (description tool) = true;
  inv_trackers :
    forall n trk,
      rateLimitTracker reg !! n = Some trk ->
      1 <= trk_calls trk
      /\ exists tool, tools reg !! n = Some tool /\ rateLimit tool <> None;
  inv_logs :
    Forall (fun log => is_Some (tools reg !! log_toolName log))
      (executionLogs reg);
}.

(** [echo_tool], limited to one call per 60 seconds. *)
Definition limited_echo_tool : Tool unit :=
  {| name := "echo"; description := "Returns its parameters";
     category := "utility";
     parameters := parameters echo_tool;
     execute := execute echo_tool;
     rateLimit := Some {| calls := 1; period := 60 |} |}.

(** The answers of consecutive rate-limit checks of one tool, made at the
    given times. *)
Fixpoint check_all {X} (toolName : string) (maxCalls period : Z)
    (times : list Z) (reg : Registry X) : list bool :=
  match times with
  | [] => []
  | t :: rest =>
      let (ok, reg') := checkRateLimit toolName maxCalls period t reg in
      ok :: check_all toolName maxCalls period rest reg'
  end.

(** A log entry passes a filter of [getExecutionLogs] that is absent or
    the empty string, and otherwise when its field is the wanted string. *)
Definition passes_filter (wanted : option string) (field : option string)
    : Prop :=
  match wanted with
  | Some v => if JsString.truthy v then field = Some v else True
  | None => True
  end.

(** The verdicts of [AIService.moderateContent]. *)
Definition verdict_safe : AIService.Moderation :=
  {| AIService.safe := true; AIService.reason := None |}.

Definition verdict_unsafe (text : string) : AIService.Moderation :=
  {| AIService.safe := false;
     AIService.reason :=
       Some (JsString.trim (JsString.remove_first "UNSAFE:" text)) |}.

(** A schema that requires [toString] and declares nothing. *)
Definition requires_toString_schema : JSONSchema :=
  {| s_type := "object"; s_properties := None;
     s_required := Some ["toString"] |}.

(** A schema that declares an optional string [constructor]. *)
Definition declares_constructor_schema : JSONSchema :=
  {| s_type := "object";
     s_properties :=
       Some [("constructor", {| p_type := Some "string"; p_minLength := None;
                                p_maxLength := None; p_minimum := None;
                                p_maximum := None; p_enum := None |})];
     s_required := None |}.

(** The text an answer of the binding carries, if any:
    [response && response.response]. *)
Definition answer_text (a : AIOutcome) : option string :=
  match a with
  | AIResolves resp =>
      match resp_response resp with
      | Some text => if JsString.truthy text then Some text else None
      | None => None
      end
  | AIRejects _ => None
  end.

(** The number of rejected calls of the binding from interaction [k] on,
    before the first call that resolves, counted up to [limit]. *)
Fixpoint rejections (env : Env) (k limit : nat) : nat :=
  match limit with
  | O => O
  | S limit' =>
      match ai_run env k with
      | AIRejects _ => S (rejections env (S k) limit')
      | AIResolves _ => O
      end
  end.

(* ===================================================================== *)
(** * The helpers on the inputs of the repository's tests *)
(* ===================================================================== *)

Example sanitizeInput_trims :
  Helpers.sanitizeInput "  Hello World  " = "Hello World".
Proof. reflexivity. Qed.

Example sanitizeInput_strips_angle_brackets :
  Helpers.sanitizeInput "<script>alert(1)</script>Hello"
  = "scriptalert(1)/scriptHello".
Proof. reflexivity. Qed.

(** Control characters inside the text are kept: only surrounding white
    space and the two angle brackets are removed. *)
Example sanitizeInput_keeps_control_characters :
  Helpers.sanitizeInput (String "001"%char "a" +:+ String "007"%char "")
  = String "001"%char "a" +:+ String "007"%char "".
Proof. reflexivity. Qed.

Example estimateTokenCount_hello :
  Helpers.estimateTokenCount "Hello, world!" = 4.
Proof. reflexivity. Qed.

Example split_keeps_empty_pieces :
  JsString.split " " "a b  c" = ["a"; "b"; ""; "c"]
  /\ JsString.split " " "" = [""].
Proof. split; reflexivity. Qed.

(* ===================================================================== *)
(** * Properties of the string primitives *)
(* ===================================================================== *)

Section StringFacts.

Lemma app_cons (c : ascii) (s t : string) :
  String c s +:+ t = String c (s +:+ t).
Proof. reflexivity. Qed.

Lemma app_empty_r (s : string) : s +:+ "" = s.
Proof. induction s as [|c s IH]; [done|]. by rewrite app_cons, IH. Qed.

Lemma app_assoc_str (s t u : string) : (s +:+ t) +:+ u = s +:+ (t +:+ u).
Proof. induction s as [|c s IH]; [done|]. by rewrite !app_cons, IH. Qed.

Lemma length_app_str (s t : string) :
  String.length (s +:+ t) = (String.length s + String.length t)%nat.
Proof.
  induction s as [|c s IH]; [done|].
  rewrite app_cons. simpl. by rewrite IH.
Qed.

Lemma ceil_div_4_bounds (n : Z) :
  4 * Helpers.ceil_div n 4 - 3 <= n <= 4 * Helpers.ceil_div n 4.
Proof. unfold Helpers.ceil_div. Z.div_mod_to_equations. lia. Qed.

(** Two texts measured apart need at most one token more than their
    concatenation with a separating space. *)
Lemma estimateTokenCount_joined (a b : string) :
  Helpers.estimateTokenCount a + Helpers.estimateTokenCount b
  <= Helpers.estimateTokenCount (a +:+ " " +:+ b) + 1.
Proof.
  unfold Helpers.estimateTokenCount.
  rewrite !length_app_str. simpl String.length.
  pose proof (ceil_div_4_bounds (Z.of_nat (String.length a))).
  pose proof (ceil_div_4_bounds (Z.of_nat (String.length b))).
  pose proof (ceil_div_4_bounds
    (Z.of_nat (String.length a + (1 + String.length b)))).
  lia.
Qed.

End StringFacts.

(* ===================================================================== *)
(** * Context assembly and the token budget *)
(* ===================================================================== *)

Section ContextBudget.

Lemma segments_tokens_app (l1 l2 : list PromptMessage) :
  segments_tokens (l1 ++ l2) = segments_tokens l1 + segments_tokens l2.
Proof.
  induction l1 as [|m l1 IH]; simpl; [done|].
  unfold segments_tokens in *. simpl. rewrite IH. lia.
Qed.

Lemma segments_tokens_rev (l : list PromptMessage) :
  segments_tokens (rev l) = segments_tokens l.
Proof.
  induction l as [|m l IH]; [done|].
  simpl rev. rewrite segments_tokens_app, IH.
  unfold segments_tokens. simpl. lia.
Qed.

(** The loop keeps a prefix of the newest-first history, puts it in front
    of what was there in chronological order, and stays within the budget
    once it started within it. *)
Lemma select_history_spec (recent : list Message) :
  forall (tokenCount : Z) (messages : list PromptMessage),
  exists n : nat,
    select_history recent tokenCount messages
      = rev (map prompt_of (take n recent)) ++ messages
    /\ (tokenCount <= MAX_CONTEXT_TOKENS ->
        tokenCount + segments_tokens (map prompt_of (take n recent))
          <= MAX_CONTEXT_TOKENS).
Proof.
  induction recent as [|msg rest IH]; intros tokenCount messages.
  - exists 0%nat. split; [done|]. unfold segments_tokens; simpl. lia.
  - simpl select_history.
    destruct (tokenCount + Helpers.estimateTokenCount (msg_content msg)
              >? MAX_CONTEXT_TOKENS) eqn:Hover.
    + exists 0%nat. split; [done|]. unfold segments_tokens; simpl. lia.
    + destruct (IH (tokenCount + Helpers.estimateTokenCount (msg_content msg))
                   ({| pm_role := msg_role msg; pm_content := msg_content msg |}
                    :: messages)) as (n & Heq & Hle).
      exists (S n). split.
      * rewrite Heq. simpl. rewrite <- app_assoc. reflexivity.
      * intros _. simpl take. simpl map.
        assert (Hfit : tokenCount + Helpers.estimateTokenCount (msg_content msg)
                       <= MAX_CONTEXT_TOKENS) by lia.
        specialize (Hle Hfit).
        change (segments_tokens (prompt_of msg :: map prompt_of (take n rest)))
          with (Helpers.estimateTokenCount (msg_content msg)
                + segments_tokens (map prompt_of (take n rest))).
        lia.
Qed.

(** Measured one by one, the system segments need at most one token more
    than the builder's starting count. *)
Lemma system_segments_tokens (memories : list Memory) :
  segments_tokens (system_segments memories) <= initial_tokenCount memories + 1.
Proof.
  unfold initial_tokenCount, system_segments.
  destruct memories as [|m ms].
  - unfold segments_tokens, JsString.join. simpl. lia.
  - unfold segments_tokens, JsString.join. simpl foldr. simpl map.
    simpl String.concat.
    pose proof (estimateTokenCount_joined SYSTEM_PROMPT
                  (memory_segment (m :: ms))).
    change (SYSTEM_PROMPT ++ " " ++ memory_segment (m :: ms))%string
      with (SYSTEM_PROMPT +:+ " " +:+ memory_segment (m :: ms)).
    lia.
Qed.

End ContextBudget.

(** C1, as stated, fails: one retrieved memory of 16384 characters and an
    empty history already yield segments whose estimated token counts sum
    to more than [MAX_CONTEXT_TOKENS]; the memory segment is never trimmed. *)
Lemma buildContext_exceeds_budget :
  MAX_CONTEXT_TOKENS
  < segments_tokens (buildContext_of [] [memory_of_size 16384]).
Proof. vm_compute. reflexivity. Qed.

(** The bound [MAX_CONTEXT_TOKENS + 1] of [buildContext_budget] is reached:
    with a one-letter memory the builder starts at 52 tokens while the two
    system segments measure 41 + 12, and a history message of 4044 tokens
    fills the budget exactly. *)
Example buildContext_rounding :
  initial_tokenCount [memory_of_size 1] = 52
  /\ segments_tokens (buildContext_of [message_of_size 16176] [memory_of_size 1])
     = MAX_CONTEXT_TOKENS + 1.
Proof. split; vm_compute; reflexivity. Qed.

(** C1 (amended).  When the builder's own estimate of the system segments
    (system prompt and folded memory segment, joined by a space) is within
    [MAX_CONTEXT_TOKENS], [buildContext] returns the [n] most recent history
    messages in chronological order followed by the system segments, its
    running total (that estimate plus the estimates of the selected history
    messages) is at most [MAX_CONTEXT_TOKENS], and the estimates of all
    returned segments sum to at most [MAX_CONTEXT_TOKENS + 1]. *)
Theorem buildContext_budget (history : list Message) (memories : list Memory) :
  initial_tokenCount memories <= MAX_CONTEXT_TOKENS ->
  exists n : nat,
    let selected := rev (map prompt_of (take n (rev history))) in
    buildContext_of history memories = selected ++ system_segments memories
    /\ initial_tokenCount memories + segments_tokens selected
       <= MAX_CONTEXT_TOKENS
    /\ segments_tokens (buildContext_of history memories)
       <= MAX_CONTEXT_TOKENS + 1.
Proof.
  intros Hinit. unfold buildContext_of.
  destruct (select_history_spec (rev history) (initial_tokenCount memories)
              (system_segments memories)) as (n & Heq & Hle).
  exists n. cbv zeta. specialize (Hle Hinit).
  split; [exact Heq|]. split.
  - by rewrite segments_tokens_rev.
  - rewrite Heq, segments_tokens_app, segments_tokens_rev.
    pose proof (system_segments_tokens memories). lia.
Qed.

Lemma buildContext_budget_witness :
  initial_tokenCount [memory_of_size 1] <= MAX_CONTEXT_TOKENS
  /\ exists n : nat,
       let selected :=
         rev (map prompt_of (take n (rev [message_of_size 8]))) in
       buildContext_of [message_of_size 8] [memory_of_size 1]
         = selected ++ system_segments [memory_of_size 1]
       /\ initial_tokenCount [memory_of_size 1] + segments_tokens selected
          <= MAX_CONTEXT_TOKENS
       /\ segments_tokens (buildContext_of [message_of_size 8] [memory_of_size 1])
          <= MAX_CONTEXT_TOKENS + 1.
Proof.
  split.
  - apply Z.leb_le. vm_compute. reflexivity.
  - apply (buildContext_budget [message_of_size 8] [memory_of_size 1]).
    apply Z.leb_le. vm_compute. reflexivity.
Defined.

(* ===================================================================== *)
(** * Reasoning about computations *)
(* ===================================================================== *)

Section WeakestPreconditions.

Context {A B : Type}.

Lemma wp_ret (a : A) w (Q : Outcome A -> World -> Prop) :
  Q (Returned a) w -> wp (ret a) w Q.
Proof. done. Qed.

Lemma wp_throw (e : string) w (Q : Outcome A -> World -> Prop) :
  Q (Thrown e) w -> wp (throw e) w Q.
Proof. done. Qed.

Lemma wp_modify (f : World -> World) w (Q : Outcome unit -> World -> Prop) :
  Q (Returned tt) (f w) -> wp (modify f) w Q.
Proof. done. Qed.

Lemma wp_get w (Q : Outcome World -> World -> Prop) :
  Q (Returned w) w -> wp get w Q.
Proof. done. Qed.

Lemma wp_bind (c : M A) (k : A -> M B) w (Q : Outcome B -> World -> Prop) :
  wp c w (fun r w' =>
            match r with
            | Returned a => wp (k a) w' Q
            | Thrown e => Q (Thrown e) w'
            end) ->
  wp (bind c k) w Q.
Proof. unfold wp, bind. by destruct (c w) as [[a|e] w']. Qed.

Lemma wp_try_catch (c : M A) (h : string -> M A) w
    (Q : Outcome A -> World -> Prop) :
  wp c w (fun r w' =>
            match r with
            | Returned a => Q (Returned a) w'
            | Thrown e => wp (h e) w' Q
            end) ->
  wp (try_catch c h) w Q.
Proof. unfold wp, try_catch. by destruct (c w) as [[a|e] w']. Qed.

Lemma wp_mono (c : M A) w (P Q : Outcome A -> World -> Prop) :
  wp c w P -> (forall r w', P r w' -> Q r w') -> wp c w Q.
Proof. unfold wp. auto. Qed.

End WeakestPreconditions.

Section Advances.

Lemma advances_trans (P1 P2 P : list Effect -> Prop) w1 w2 w3 :
  (forall t1 t2, P1 t1 -> P2 t2 -> P (t1 ++ t2)) ->
  advances P1 w1 w2 -> advances P2 w2 w3 -> advances P w1 w3.
Proof.
  intros HP [? ? ? ? ? ? ? (t1 & Ht1 & HP1)] [? ? ? ? ? ? ? (t2 & Ht2 & HP2)].
  split; try congruence; try lia.
  exists (t1 ++ t2). split; [|auto].
  by rewrite Ht2, Ht1, app_assoc.
Qed.

(** Steps without a trace leave the trace predicate alone. *)
Lemma advances_silent (P : list Effect -> Prop) w1 w2 w3 :
  advances P w1 w2 -> advances (fun tr => tr = []) w2 w3 -> advances P w1 w3.
Proof.
  apply advances_trans. intros t1 t2 HP ->. by rewrite app_nil_r.
Qed.

End Advances.

(* ===================================================================== *)
(** * The message pipeline, step by step *)
(* ===================================================================== *)

(** Unfold the monad and the primitive interactions, and compute. *)
Ltac run_m :=
  unfold wp, try_catch, bind, ret, throw, modify, get,
    AI_run, record, sleep, interact, Date_now, Math_random_suffix, generateId;
  cbn.

(** Close a goal [advances P w w'] for a [w'] built from [w] by field
    updates, given the trace extension [tr]. *)
Ltac solve_advances tr :=
  split; cbn; try reflexivity; try lia;
  exists tr; split; [by rewrite <- ?app_assoc, ?app_nil_r | ].

(** Name the facts of a hypothesis [advances P w w']. *)
Ltac adv_facts H :=
  let tr := fresh "tr" in
  destruct H as [?Hi ?Hs ?Hc ?Hwf ?Hm ?Hh ?Ha (tr & ?Htr & ?HP)].

Section AgentSteps.

Variable env : Env.

Lemma generateEmbedding_spec (text : string) w :
  wp (generateEmbedding env text) w (fun _ w' =>
    advances (fun tr => tr = [EffAIRun EMBEDDING_MODEL]) w w').
Proof.
  unfold generateEmbedding. run_m.
  destruct (ai_run env (interactions w)) as [e|resp]; cbn.
  - solve_advances [EffAIRun EMBEDDING_MODEL]. done.
  - destruct (resp_data0 resp); cbn;
      solve_advances [EffAIRun EMBEDDING_MODEL]; done.
Qed.

Lemma storeInMemory_spec (content type messageId uid : string) (role : Role) w :
  wp (storeInMemory env content type messageId uid role) w (fun r w' =>
    r = Returned tt
    /\ advances (fun tr => tr = [EffAIRun EMBEDDING_MODEL]) w w').
Proof.
  unfold storeInMemory. apply wp_try_catch. apply wp_bind.
  eapply wp_mono; [apply generateEmbedding_spec|].
  intros [embedding|e] w1 Hadv; [|run_m; auto].
  run_m.
  destruct (vectorize_upsert env _); cbn; (split; [done|]);
    (eapply advances_silent; [exact Hadv|]);
    solve_advances (@nil Effect); reflexivity.
Qed.

Lemma searchMemory_spec (query : string) w :
  wp (searchMemory env query) w (fun r w' =>
    (exists memories, r = Returned memories)
    /\ advances (fun tr => tr = [EffAIRun EMBEDDING_MODEL]) w w').
Proof.
  unfold searchMemory. apply wp_try_catch. apply wp_bind.
  eapply wp_mono; [apply generateEmbedding_spec|].
  intros [embedding|e] w1 Hadv; [|run_m; eauto].
  run_m.
  destruct (vectorize_query env _); cbn; (split; [eauto|]);
    (eapply advances_silent; [exact Hadv|]);
    solve_advances (@nil Effect); reflexivity.
Qed.

(** [retry] around the primary model: one to three calls with the
    pauses between them; a result comes from one of the calls. *)
Lemma retry_AI_run_spec w :
  wp (retry (AI_run env LLM_MODEL) 3 1000) w (fun r w' =>
    advances llm_attempts w w'
    /\ match r with
       | Returned resp => exists k, ai_run env k = AIResolves resp
       | Thrown _ => True
       end).
Proof.
  unfold retry, retry_from. run_m.
  destruct (ai_run env (interactions w)) as [e1|r1] eqn:E1; cbn.
  - destruct (ai_run env (S (interactions w))) as [e2|r2] eqn:E2; cbn.
    + destruct (ai_run env (S (S (interactions w)))) as [e3|r3] eqn:E3; cbn.
      * split; [|done].
        solve_advances [EffAIRun LLM_MODEL; EffSleep 1000; EffAIRun LLM_MODEL;
                        EffSleep 2000; EffAIRun LLM_MODEL].
        right; right; reflexivity.
      * split; [|eauto].
        solve_advances [EffAIRun LLM_MODEL; EffSleep 1000; EffAIRun LLM_MODEL;
                        EffSleep 2000; EffAIRun LLM_MODEL].
        right; right; reflexivity.
    + split; [|eauto].
      solve_advances [EffAIRun LLM_MODEL; EffSleep 1000; EffAIRun LLM_MODEL].
      right; left; reflexivity.
  - split; [|eauto].
    solve_advances [EffAIRun LLM_MODEL]. left; reflexivity.
Qed.

(** The inference step never throws and never answers with an empty text:
    it returns the text of a call that resolved, or the apology. *)
Lemma generateAIResponse_spec (messages : list PromptMessage) w :
  wp (generateAIResponse env messages) w (fun r w' =>
    exists text,
      r = Returned text
      /\ JsString.truthy text = true
      /\ advances llm_attempts w w'
      /\ (text = APOLOGY
          \/ exists k resp,
               ai_run env k = AIResolves resp
               /\ resp_response resp = Some text)).
Proof.
  unfold generateAIResponse. apply wp_try_catch. apply wp_bind.
  eapply wp_mono; [apply retry_AI_run_spec|].
  intros [resp|e] w1 [Hadv Hres].
  - destruct Hres as [k Hk].
    destruct (resp_response resp) as [text|] eqn:Htext.
    + destruct (JsString.truthy text) eqn:Htruthy; run_m.
      * exists text. eauto 10.
      * exists APOLOGY. auto.
    + run_m. exists APOLOGY. auto.
  - run_m. exists APOLOGY. auto.
Qed.

Lemma saveMessage_spec (message : Message) w :
  wp (saveMessage env message) w (fun r w' =>
    match r with
    | Returned _ =>
        w' = set_messages_table (messages_table w ++ [message])
               (set_interactions (S (interactions w)) w)
    | Thrown e =>
        persistence_error env e
        /\ w' = set_interactions (S (interactions w)) w
    end).
Proof.
  unfold saveMessage. run_m.
  destruct (sql_exec env (interactions w)) as [e|] eqn:E; cbn; [|done].
  split; [|done]. exists (interactions w). auto.
Qed.

Lemma saveState_spec w :
  wp (saveState env) w (fun r w' =>
    advances (fun tr => tr = []) w w'
    /\ userContext (state w') = userContext (state w)
    /\ match r with
       | Returned _ => True
       | Thrown e => persistence_error env e
       end).
Proof.
  unfold saveState. run_m.
  destruct (storage_put env (S (interactions w))) as [e|] eqn:E; cbn.
  - split; [solve_advances (@nil Effect); reflexivity|].
    split; [done|]. exists (S (interactions w)). auto.
  - split; [solve_advances (@nil Effect); reflexivity|]. done.
Qed.

Lemma wp_Date_now w (Q : Outcome Z -> World -> Prop) :
  Q (Returned (date_now env (interactions w)))
    (set_interactions (S (interactions w)) w) ->
  wp (Date_now env) w Q.
Proof. done. Qed.

Lemma wp_generateId w (Q : Outcome string -> World -> Prop) :
  Q (Returned (JsString.of_Z (date_now env (interactions w)) +:+ "-"
               +:+ math_random env (S (interactions w))))
    (set_interactions (S (S (interactions w)))
       (set_interactions (S (interactions w)) w)) ->
  wp (generateId env) w Q.
Proof. done. Qed.

Lemma llm_attempts_agent_effect (tr : list Effect) :
  llm_attempts tr -> Forall agent_effect tr.
Proof.
  unfold agent_effect.
  intros [-> | [-> | ->]];
    repeat match goal with
           | |- Forall _ (_ :: _) => constructor
           | |- Forall _ [] => constructor
           end;
    first [ by left | by right; left | right; right; by eexists ].
Qed.

Local Opaque storeInMemory searchMemory generateAIResponse saveState saveMessage.

(** [processMessage] either completes the turn or stops on a persistence
    error; nothing else can make it throw. *)
Lemma processMessage_spec (content : string) (uid : option string) w :
  wp (processMessage env content uid) w (processMessage_post env content w).
Proof.
  unfold processMessage.
  apply wp_bind, wp_Date_now. apply wp_bind.
  eapply (wp_mono _ _ (fun r w1 =>
            r = Returned tt
            /\ advances (fun tr => tr = []) w w1
            /\ (interactions w < interactions w1)%nat)).
  { destruct uid as [u|]; [destruct (JsString.truthy u)|]; run_m;
      (split; [done|]); (split; [|lia]);
      solve_advances (@nil Effect); reflexivity. }
  intros r w1 (-> & Hw1 & Hk1).
  apply wp_bind, wp_generateId. apply wp_bind, wp_Date_now.
  apply wp_bind, wp_modify. apply wp_bind.
  eapply wp_mono; [apply saveMessage_spec|].
  intros [[]|e] w2 Hw2.
  2:{ (* the user message could not be saved *)
      destruct Hw2 as [He ->]. adv_facts Hw1. subst.
      split; [cbn; congruence|]. split; [|done].
      exists []. split; [|constructor]. cbn. congruence. }
  apply wp_bind. eapply wp_mono; [apply storeInMemory_spec|].
  intros r w3 [-> Hw3].
  apply wp_bind. eapply wp_mono; [apply searchMemory_spec|].
  intros r w4 [[memories ->] Hw4].
  apply wp_bind. unfold buildContext. apply wp_bind, wp_get. apply wp_ret.
  apply wp_bind. eapply wp_mono; [apply generateAIResponse_spec|].
  intros r w5 (text & -> & Htruthy & Hw5 & Horigin).
  apply wp_bind, wp_generateId. apply wp_bind, wp_Date_now.
  apply wp_bind, wp_Date_now.
  apply wp_bind, wp_modify. apply wp_bind.
  eapply wp_mono; [apply saveMessage_spec|].
  adv_facts Hw1. adv_facts Hw3. adv_facts Hw4. adv_facts Hw5.
  subst w2. cbn in *. subst.
  pose proof (llm_attempts_agent_effect _ HP2) as Hattempts.
  assert (Hembed : agent_effect (EffAIRun EMBEDDING_MODEL)) by (by left).
  intros [[]|e] w6 Hw6.
  2:{ (* the reply could not be saved *)
      destruct Hw6 as [He ->].
      split; [cbn; congruence|]. split; [|done].
      cbn. rewrite Htr2, Htr1, Htr0, Htr. rewrite <- !app_assoc.
      eexists. split; [reflexivity|].
      repeat (apply Forall_app; split); auto. }
  apply wp_bind. eapply wp_mono; [apply storeInMemory_spec|].
  intros r w7 [-> Hw7].
  apply wp_bind. eapply wp_mono; [apply saveState_spec|].
  intros r w8 (Hw8 & _ & Hres).
  adv_facts Hw7. adv_facts Hw8. subst w6. cbn in *. subst.
  assert (Htrace : trace w8
            = trace w ++ [EffAIRun EMBEDDING_MODEL; EffAIRun EMBEDDING_MODEL]
                ++ tr2 ++ [EffAIRun EMBEDDING_MODEL]).
  { rewrite Htr4, Htr3, Htr2, Htr1, Htr0, Htr.
    rewrite <- !app_assoc. reflexivity. }
  assert (Hall : Forall agent_effect
            ([EffAIRun EMBEDDING_MODEL; EffAIRun EMBEDDING_MODEL]
               ++ tr2 ++ [EffAIRun EMBEDDING_MODEL])).
  { repeat (apply Forall_app; split); auto. }
  destruct r as [[]|e].
  2:{ (* the agent state could not be saved *)
      split; [congruence|]. split; [eauto|done]. }
  apply wp_bind. unfold trimHistory. apply wp_modify.
  apply wp_bind, wp_Date_now. apply wp_ret.
  set (um := {| msg_role := user |}) in *.
  set (am := {| msg_role := assistant |}) in *.
  assert (Hhist : conversationHistory (state w8)
                  = conversationHistory (state w) ++ [um; am]).
  { rewrite Hh4, Hh3, Hh2, Hh1, Hh0, Hh. by rewrite <- app_assoc. }
  assert (Htable : messages_table w8 = messages_table w ++ [um; am]).
  { rewrite Hm4, Hm3, Hm2, Hm1, Hm0, Hm. by rewrite <- app_assoc. }
  split; [|split].
  - destruct (_ <? _)%nat; cbn; congruence.
  - exists ([EffAIRun EMBEDDING_MODEL; EffAIRun EMBEDDING_MODEL]
              ++ tr2 ++ [EffAIRun EMBEDDING_MODEL]).
    split; [|done]. destruct (_ <? _)%nat; exact Htrace.
  - exists um. split; try done.
    + exists (S (S (interactions w1))), (S (S (interactions w5))).
      split; [lia|done].
    + destruct (_ <? _)%nat; exact Htable.
    + unfold trimmed. rewrite <- Hhist.
      destruct (_ <? _)%nat; reflexivity.
    + exists ([EffAIRun EMBEDDING_MODEL; EffAIRun EMBEDDING_MODEL]
                ++ tr2 ++ [EffAIRun EMBEDDING_MODEL]).
      split; [destruct (_ <? _)%nat; exact Htrace|].
      exists tr2. done.
Qed.

End AgentSteps.

(* ===================================================================== *)
(** * processMessage: validation, inference failure, timestamps *)
(* ===================================================================== *)

(** C2, as stated, fails: the input [" <> "] sanitizes to the empty string,
    yet [processMessage] persists a user message with empty content and
    returns the assistant reply. *)
Lemma processMessage_accepts_empty_content :
  Helpers.sanitizeInput " <> " = ""
  /\ match processMessage working_env " <> " None (initial_world 0) with
     | (Returned am, w') =>
         msg_role am = assistant
         /\ msg_content am = "Hello there"
         /\ map msg_content (messages_table w') = [""; "Hello there"]
     | (Thrown _, _) => False
     end.
Proof. split; vm_compute; auto. Qed.

(** C2 (amended).  [processMessage] makes no check on the sanitized content:
    for every input, also one that sanitizes to the empty string, it
    persists a user message whose content is the sanitized input followed by
    the assistant reply, and returns that reply; the only way it fails is a
    rejection by the SQL store or the Durable Object storage. *)
Theorem processMessage_no_validation
    (env : Env) (content : string) (uid : option string) (w : World) :
  match processMessage env content uid w with
  | (Returned am, w') =>
      msg_role am = assistant
      /\ exists um,
           msg_role um = user
           /\ msg_content um = Helpers.sanitizeInput content
           /\ messages_table w' = messages_table w ++ [um; am]
  | (Thrown e, _) => persistence_error env e
  end.
Proof.
  pose proof (processMessage_spec env content uid w) as H. unfold wp in H.
  destruct (processMessage env content uid w) as [[am|e] w'];
    destruct H as (_ & _ & H); [|exact H].
  destruct H as [um Hturn]. destruct Hturn. eauto.
Qed.







(* ===================================================================== *)
(** * Streaming over a WebSocket *)
(* ===================================================================== *)

Section SplitJoin.

Lemma rev_app_spec (s1 s2 : string) :
  String.rev_app s1 s2 = String.rev s1 +:+ s2.
Proof.
  revert s2. induction s1 as [|c s1 IH]; intros s2; [done|].
  unfold String.rev. simpl. rewrite (IH (String c s2)), (IH (String c "")).
  by rewrite app_assoc_str.
Qed.

Lemma rev_cons (c : ascii) (s : string) :
  String.rev (String c s) = String.rev s +:+ String c "".
Proof. unfold String.rev at 1. simpl. apply rev_app_spec. Qed.

Lemma split_go_nonempty (sep : ascii) (s cur : string) :
  exists piece rest, JsString.split_go sep cur s = piece :: rest.
Proof.
  revert cur. induction s as [|c s IH]; intros cur; simpl; [eauto|].
  destruct (Ascii.eqb c sep); eauto.
Qed.

Lemma concat_empty_cons (x : string) (l : list string) :
  String.concat "" (x :: l) = x +:+ String.concat "" l.
Proof. destruct l; simpl; [by rewrite app_empty_r | done]. Qed.

(** Joining what [streamResponse] emits for the pieces of a split gives
    back the text that was split. *)
Lemma stream_tokens_split_go (s cur : string) :
  String.concat "" (stream_tokens (JsString.split_go " " cur s))
  = String.rev cur +:+ s.
Proof.
  revert cur. induction s as [|c s IH]; intros cur.
  - simpl. by rewrite !app_empty_r.
  - simpl JsString.split_go.
    destruct (Ascii.eqb c " ") eqn:Hc.
    + apply Ascii.eqb_eq in Hc as ->.
      destruct (split_go_nonempty " " s "") as (piece & rest & Hsplit).
      specialize (IH ""). rewrite Hsplit in *.
      change (stream_tokens (String.rev cur :: piece :: rest))
        with ((String.rev cur +:+ " ") :: stream_tokens (piece :: rest)).
      rewrite concat_empty_cons, IH. by rewrite app_assoc_str.
    + rewrite IH, rev_cons. by rewrite app_assoc_str.
Qed.

Lemma stream_tokens_split (s : string) :
  String.concat "" (stream_tokens (JsString.split " " s)) = s.
Proof. apply stream_tokens_split_go. Qed.

End SplitJoin.

Section Sending.

Lemma sent_nothing (ws : nat) w w' :
  sockets w' = sockets w -> sent ws [] w w'.
Proof.
  intros Heq. split; [|by intros; rewrite Heq].
  rewrite Heq. destruct (sockets w !! ws); simpl; [|done].
  by rewrite app_nil_r.
Qed.

Lemma sent_trans (ws : nat) (f1 f2 : list WsMessage) w1 w2 w3 :
  sent ws f1 w1 w2 -> sent ws f2 w2 w3 -> sent ws (f1 ++ f2) w1 w3.
Proof.
  intros [H1 H1'] [H2 H2']. split.
  - rewrite H2, H1. destruct (sockets w1 !! ws); simpl; [|done].
    by rewrite app_assoc.
  - intros ws' Hne. by rewrite H2', H1'.
Qed.

Lemma sent_one (ws : nat) (m : WsMessage) w :
  sent ws [m] w (set_sockets (alter (fun q => q ++ [m]) ws (sockets w)) w).
Proof.
  split; cbn.
  - apply list_lookup_alter_eq.
  - intros ws' Hne. by apply list_lookup_alter_ne.
Qed.

Variable env : Env.

Lemma wp_send (ws : nat) (m : WsMessage) w (Q : Outcome unit -> World -> Prop) :
  Q (Returned tt) (set_sockets (alter (fun q => q ++ [m]) ws (sockets w)) w) ->
  wp (sendWebSocketMessage ws m) w Q.
Proof. done. Qed.

(** [streamResponse] hands one [token] frame per word to the socket and
    touches nothing else that is persisted. *)
Lemma stream_words_spec (ws : nat) (words : list string) :
  forall w,
  wp (stream_words env ws words) w (fun r w' =>
    r = Returned tt
    /\ messages_table w' = messages_table w
    /\ exists frames,
         sent ws frames w w'
         /\ Forall (fun m => is_token m = true) frames
         /\ token_texts frames = stream_tokens words).
Proof.
  induction words as [|word rest IH]; intros w.
  - apply wp_ret. split; [done|]. split; [done|].
    exists []. split; [by apply sent_nothing|]. by split.
  - simpl stream_words.
    apply wp_bind, wp_Date_now. apply wp_bind, wp_send.
    apply wp_bind, wp_modify.
    eapply wp_mono; [apply IH|].
    intros r w' (-> & Hm & frames & Hsent & Htok & Htexts).
    split; [done|]. split; [by rewrite Hm|].
    pose (frame := WsToken
            (word +:+ match rest with [] => "" | _ :: _ => " " end)
            (date_now env (interactions w))).
    exists (frame :: frames). split; [|split].
    + change (frame :: frames) with ([frame] ++ frames).
      eapply sent_trans; [|exact Hsent].
      split; cbn.
      * apply list_lookup_alter_eq.
      * intros ws' Hne. by apply list_lookup_alter_ne.
    + by constructor.
    + simpl. by rewrite Htexts.
Qed.

End Sending.

Section ChatTurn.

Variable env : Env.

(** A chat message received on socket [ws] is answered on [ws] alone:
    either by the tokens of the persisted reply and a completion frame,
    or by one error frame. *)
Lemma handleChatMessage_spec (ws : nat) (content : string)
    (uid : option string) w :
  wp (handleChatMessage env ws content uid) w (handleChatMessage_post env ws w).
Proof.
  unfold handleChatMessage.
  apply wp_bind, wp_Date_now. apply wp_bind, wp_send.
  pose proof (sent_one ws (WsTyping (date_now env (interactions w)))
                (set_interactions (S (interactions w)) w)) as Htyping.
  set (w0 := set_sockets _ _) in *.
  assert (Hfirst : sent ws [WsTyping (date_now env (interactions w))] w w0).
  { exact Htyping. }
  assert (Hm0 : messages_table w0 = messages_table w) by done.
  clearbody w0. clear Htyping.
  apply wp_try_catch. apply wp_bind.
  eapply wp_mono; [apply processMessage_spec|].
  intros [am|e] w1 (Hsock & _ & Hres).
  - destruct Hres as [um Hturn].
    apply wp_bind. unfold streamResponse.
    eapply wp_mono; [apply stream_words_spec|].
    intros r w2 (-> & Hm & frames & Hsent & Htok & Htexts).
    apply wp_bind, wp_Date_now. apply wp_send.
    split; [done|].
    pose proof (sent_one ws
                  (WsMessageComplete (msg_id am) (date_now env (interactions w2)))
                  (set_interactions (S (interactions w2)) w2)) as Hlast.
    set (w3 := set_sockets _ _) in *.
    exists ([WsTyping (date_now env (interactions w))]
              ++ ([] ++ (frames
              ++ [WsMessageComplete (msg_id am) (date_now env (interactions w2))]))).
    split.
    + eapply sent_trans; [exact Hfirst|].
      eapply sent_trans; [apply sent_nothing; exact Hsock|].
      eapply sent_trans; [exact Hsent|exact Hlast].
    + left. exists um, am. split; [|split].
      * exists (date_now env (interactions w)), frames,
          (date_now env (interactions w2)).
        split; [done|]. split; [done|].
        rewrite Htexts. apply stream_tokens_split.
      * by destruct Hturn.
      * destruct Hturn. subst w3. cbn. by rewrite Hm, turn_persisted0, Hm0.
  - apply wp_bind, wp_Date_now. apply wp_send.
    split; [done|].
    pose proof (sent_one ws
                  (WsError "Failed to process message" (Some e)
                     (date_now env (interactions w1)))
                  (set_interactions (S (interactions w1)) w1)) as Hlast.
    set (w3 := set_sockets _ _) in *.
    exists ([WsTyping (date_now env (interactions w))]
              ++ ([] ++ [WsError "Failed to process message" (Some e)
                           (date_now env (interactions w1))])).
    split.
    + eapply sent_trans; [exact Hfirst|].
      eapply sent_trans; [apply sent_nothing; exact Hsock|exact Hlast].
    + right. exists e. split; [|exact Hres]. by eexists _, _.
Qed.

End ChatTurn.

(** C4, as stated, fails: in a completed turn the token texts concatenate
    to the reply, but the completion frame names the reply by [messageId]
    and has no [content] property to compare them with. *)
Lemma completion_frame_has_no_content :
  match sockets (exec (handleChatMessage working_env 0 "Hello" None)
                   one_connection) !! 0%nat with
  | Some frames =>
      String.concat "" (token_texts frames) = "Hello there"
      /\ match last frames with
         | Some (WsMessageComplete messageId ts) =>
             ws_content (WsMessageComplete messageId ts) = None
             /\ ws_content (WsMessageComplete messageId ts)
                <> Some (String.concat "" (token_texts frames))
         | _ => False
         end
  | None => False
  end.
Proof. vm_compute. repeat split; discriminate. Qed.

(** C4 (amended).  A chat message handled on a socket is answered there
    either by a completed turn or by a failed one.  In a completed turn the
    frames are the typing indicator, token frames and one completion frame;
    the texts of the token frames concatenate exactly to the content of the
    assistant message that [processMessage] persisted in this turn, which
    the completion frame names by its id (the frame has no content of its
    own).  The message is persisted whole before the first token is sent.
    In a failed turn the typing indicator is followed by one error frame and
    no token frame. *)
Theorem streamed_tokens_match_persisted
    (env : Env) (ws : nat) (content : string) (uid : option string)
    (w : World) (old : list WsMessage) :
  sockets w !! ws = Some old ->
  match handleChatMessage env ws content uid w with
  | (r, w') =>
      r = Returned tt
      /\ exists frames,
           sockets w' !! ws = Some (old ++ frames)
           /\ ((exists um am,
                  completed_turn_frames am frames
                  /\ msg_role am = assistant
                  /\ messages_table w' = messages_table w ++ [um; am])
               \/ (exists e,
                     failed_turn_frames e frames /\ persistence_error env e))
  end.
Proof.
  intros Hold.
  pose proof (handleChatMessage_spec env ws content uid w) as H. unfold wp in H.
  destruct (handleChatMessage env ws content uid w) as [r w'].
  cbn [fst snd] in H.
  destruct H as (-> & frames & [Hsent _] & Hcases).
  split; [done|]. exists frames. split; [|exact Hcases].
  by rewrite Hsent, Hold.
Qed.

Lemma streamed_tokens_match_persisted_witness :
  sockets one_connection !! 0%nat
  = Some [WsConnected "Connected to AI Agent" "agent-1"
            "1700000000000-k3x9q2a" 1700000000002]
  /\ match handleChatMessage working_env 0 "Hello" None one_connection with
     | (r, w') =>
         r = Returned tt
         /\ exists frames,
              sockets w' !! 0%nat
              = Some ([WsConnected "Connected to AI Agent" "agent-1"
                         "1700000000000-k3x9q2a" 1700000000002] ++ frames)
              /\ ((exists um am,
                     completed_turn_frames am frames
                     /\ msg_role am = assistant
                     /\ messages_table w'
                        = messages_table one_connection ++ [um; am])
                  \/ (exists e,
                        failed_turn_frames e frames
                        /\ persistence_error working_env e))
     end.
Proof.
  split.
  - vm_compute. reflexivity.
  - apply (streamed_tokens_match_persisted working_env 0 "Hello" None
             one_connection).
    vm_compute. reflexivity.
Defined.

(** C5, as stated, fails: with two connections attached, a chat message
    arriving on the first is answered on the first only; the second socket
    holds nothing but its own welcome frame. *)
Lemma second_connection_receives_nothing :
  size (activeConnections two_connections) = 2%nat
  /\ match sockets (exec (handleChatMessage working_env 0 "Hello" None)
                      two_connections) with
     | [first; second] =>
         token_texts first = ["Hello "; "there"]
         /\ token_texts second = []
         /\ length first = 5%nat
         /\ length second = 1%nat
     | _ => False
     end.
Proof. vm_compute. repeat split. Qed.

(** C5 (amended).  The frames of a chat turn (typing indicator, tokens,
    completion or error) are sent to the socket on which the chat message
    arrived and to no other: every other socket, attached or not, holds
    after the turn exactly what it held before. *)
Theorem chat_turn_reaches_sender_only
    (env : Env) (ws ws' : nat) (content : string) (uid : option string)
    (w : World) :
  ws' <> ws ->
  match handleChatMessage env ws content uid w with
  | (_, w') =>
      sockets w' !! ws' = sockets w !! ws'
      /\ exists t rest,
           sockets w' !! ws
           = (fun q => q ++ WsTyping t :: rest) <$> (sockets w !! ws)
  end.
Proof.
  intros Hne.
  pose proof (handleChatMessage_spec env ws content uid w) as H. unfold wp in H.
  destruct (handleChatMessage env ws content uid w) as [r w'].
  cbn [fst snd] in H.
  destruct H as (_ & frames & [Hsent Hothers] & Hcases).
  split; [by apply Hothers|].
  destruct Hcases as [(um & am & (t & tokens & t' & -> & _) & _)
                     |(e & (t & t' & ->) & _)]; eauto.
Qed.

Lemma chat_turn_reaches_sender_only_witness :
  1%nat <> 0%nat
  /\ match handleChatMessage working_env 0 "Hello" None two_connections with
     | (_, w') =>
         sockets w' !! 1%nat = sockets two_connections !! 1%nat
         /\ exists t rest,
              sockets w' !! 0%nat
              = (fun q => q ++ WsTyping t :: rest)
                  <$> (sockets two_connections !! 0%nat)
     end.
Proof.
  split.
  - lia.
  - apply (chat_turn_reaches_sender_only working_env 0 1 "Hello" None
             two_connections).
    lia.
Defined.

(* ===================================================================== *)
(** * Workflow bookkeeping *)
(* ===================================================================== *)

Section Workflows.

Lemma find_set_status_same (workflowId status : string)
    (l : list WorkflowDefinition) (wf : WorkflowDefinition) :
  find_workflow workflowId l = Some wf ->
  find_workflow workflowId (set_status_of_first workflowId status l)
  = Some {| wf_id := wf_id wf; wf_name := wf_name wf; wf_status := status |}.
Proof.
  unfold find_workflow.
  induction l as [|x l IH]; simpl; [done|].
  destruct (decide (wf_id x = workflowId)) as [Heq|Hne].
  - rewrite (bool_decide_eq_true_2 _ Heq). intros [= ->].
    simpl. by rewrite (bool_decide_eq_true_2 _ Heq).
  - rewrite (bool_decide_eq_false_2 _ Hne). intros Hfind.
    simpl. rewrite (bool_decide_eq_false_2 _ Hne). auto.
Qed.

Lemma find_set_status_other (workflowId other status : string)
    (l : list WorkflowDefinition) :
  other <> workflowId ->
  find_workflow other (set_status_of_first workflowId status l)
  = find_workflow other l.
Proof.
  intros Hother. unfold find_workflow.
  induction l as [|x l IH]; simpl; [done|].
  destruct (decide (wf_id x = workflowId)) as [Heq|Hne]; simpl.
  - assert (Hx : wf_id x <> other) by congruence.
    by rewrite !(bool_decide_eq_false_2 _ Hx).
  - destruct (bool_decide (wf_id x = other)); [done|]. apply IH.
Qed.

Lemma set_status_of_first_length (workflowId status : string)
    (l : list WorkflowDefinition) :
  length (set_status_of_first workflowId status l) = length l.
Proof.
  induction l as [|x l IH]; simpl; [done|].
  destruct (decide (wf_id x = workflowId)); simpl; [done|]. by rewrite IH.
Qed.

Lemma set_status_of_first_other (workflowId status : string)
    (l : list WorkflowDefinition) (i : nat) (wf : WorkflowDefinition) :
  l !! i = Some wf ->
  wf_id wf <> workflowId ->
  set_status_of_first workflowId status l !! i = Some wf.
Proof.
  revert i. induction l as [|x l IH]; intros i Hi Hne; [done|].
  simpl. destruct (decide (wf_id x = workflowId)) as [Heq|Hx].
  - destruct i as [|i]; simpl in *; [|done].
    injection Hi as ->. done.
  - destruct i as [|i]; simpl in *; [done|]. by apply IH.
Qed.

Variable env : Env.

Lemma triggerWorkflow_spec (name params : string) w :
  wp (triggerWorkflow env name params) w (fun r w' =>
    match r with
    | Returned workflowId =>
        activeWorkflows (state w')
        = activeWorkflows (state w)
            ++ [{| wf_id := workflowId; wf_name := name;
                   wf_status := "pending" |}]
        /\ exists row,
             workflows_table w' = workflows_table w ++ [row]
             /\ row_id row = workflowId
             /\ row_status row = "pending"
    | Thrown e => persistence_error env e
    end).
Proof.
  unfold triggerWorkflow.
  apply wp_bind, wp_generateId. apply wp_bind, wp_Date_now.
  apply wp_bind. unfold interact at 1. unfold wp at 1. cbn.
  destruct (sql_exec env _) as [e|] eqn:Hsql.
  - apply wp_throw. eexists. eauto.
  - apply wp_bind, wp_modify. apply wp_bind, wp_modify. apply wp_bind.
    eapply wp_mono; [apply saveState_spec|].
    intros [[]|e] w' (Hadv & _ & Hres); [|exact Hres].
    apply wp_ret. adv_facts Hadv. cbn in *. split; [done|].
    eexists. split; [exact Hwf|]. done.
Qed.

Lemma updateWorkflowStatus_spec (workflowId status : string)
    (result : option string) w :
  wp (updateWorkflowStatus env workflowId status result) w (fun r w' =>
    match r with
    | Returned _ =>
        activeWorkflows (state w')
        = set_status_of_first workflowId status (activeWorkflows (state w))
        /\ exists now,
             workflows_table w'
             = map (update_row workflowId status result now)
                 (workflows_table w)
    | Thrown e => persistence_error env e
    end).
Proof.
  unfold updateWorkflowStatus.
  apply wp_bind, wp_Date_now.
  apply wp_bind. unfold interact at 1. unfold wp at 1. cbn.
  destruct (sql_exec env _) as [e|] eqn:Hsql.
  - apply wp_throw. eexists. eauto.
  - apply wp_bind, wp_modify. apply wp_bind, wp_modify.
    eapply wp_mono; [apply saveState_spec|].
    intros [[]|e] w' (Hadv & _ & Hres); [|exact Hres].
    adv_facts Hadv. cbn in *. split; [done|]. eauto.
Qed.

End Workflows.

(** C7, as stated, fails: a workflow that reached [completed] is put back to
    [running] by a later [updateWorkflowStatus], in the cached state and in
    the SQL table alike. *)
Lemma completed_workflow_runs_again :
  match triggerWorkflow working_env "job" "{}" (initial_world 0) with
  | (Returned workflowId, w1) =>
      let w2 :=
        exec (updateWorkflowStatus working_env workflowId "completed" None) w1 in
      let w3 :=
        exec (updateWorkflowStatus working_env workflowId "running" None) w2 in
      map wf_status (activeWorkflows (state w1)) = ["pending"]
      /\ map wf_status (activeWorkflows (state w2)) = ["completed"]
      /\ map wf_status (activeWorkflows (state w3)) = ["running"]
      /\ map row_status (workflows_table w3) = ["running"]
  | (Thrown _, _) => False
  end.
Proof. vm_compute. repeat split. Qed.

(** C7 (amended).  Every workflow created by [triggerWorkflow] starts in
    status [pending], in the cached state and in the SQL table, whatever the
    agent held before.  [updateWorkflowStatus] checks no transition:
    whatever the current status of the workflow with the given id is, also
    [completed] or [failed], it becomes the status passed in, in the cache
    and in every table row of that id; cached workflows and table rows with
    other ids stay exactly as they were, and nothing is added or removed.
    Either method fails only on a persistence error. *)
Theorem workflow_status_is_overwritten
    (env : Env) (name params workflowId status : string)
    (result : option string) (w : World) :
  match triggerWorkflow env name params w with
  | (Returned newId, w') =>
      activeWorkflows (state w')
      = activeWorkflows (state w)
          ++ [{| wf_id := newId; wf_name := name; wf_status := "pending" |}]
      /\ exists row,
           workflows_table w' = workflows_table w ++ [row]
           /\ row_id row = newId /\ row_status row = "pending"
  | (Thrown e, _) => persistence_error env e
  end
  /\ match updateWorkflowStatus env workflowId status result w with
     | (Returned _, w') =>
         (forall wf,
            find_workflow workflowId (activeWorkflows (state w)) = Some wf ->
            find_workflow workflowId (activeWorkflows (state w'))
            = Some {| wf_id := wf_id wf; wf_name := wf_name wf;
                      wf_status := status |})
         /\ (forall other, other <> workflowId ->
               find_workflow other (activeWorkflows (state w'))
               = find_workflow other (activeWorkflows (state w)))
         /\ length (activeWorkflows (state w'))
            = length (activeWorkflows (state w))
         /\ (forall (i : nat) wf,
               activeWorkflows (state w) !! i = Some wf ->
               wf_id wf <> workflowId ->
               activeWorkflows (state w') !! i = Some wf)
         /\ length (workflows_table w') = length (workflows_table w)
         /\ (forall (i : nat) row,
               workflows_table w !! i = Some row ->
               exists row',
                 workflows_table w' !! i = Some row'
                 /\ row_id row' = row_id row
                 /\ if decide (row_id row = workflowId)
                    then row_status row' = status
                    else row' = row)
     | (Thrown e, _) => persistence_error env e
     end.
Proof.
  split.
  - pose proof (triggerWorkflow_spec env name params w) as H. unfold wp in H.
    by destruct (triggerWorkflow env name params w) as [[newId|e] w'].
  - pose proof (updateWorkflowStatus_spec env workflowId status result w) as H.
    unfold wp in H.
    destruct (updateWorkflowStatus env workflowId status result w)
      as [[[]|e] w']; [|exact H].
    cbn [fst snd] in H. destruct H as (Hactive & now & Htable).
    rewrite Hactive, Htable.
    split; [by intros; apply find_set_status_same|].
    split; [by intros; apply find_set_status_other|].
    split; [apply set_status_of_first_length|].
    split; [by intros; apply set_status_of_first_other|].
    split; [apply length_map|].
    intros i row Hrow.
    exists (update_row workflowId status result now row).
    split; [by rewrite list_lookup_fmap, Hrow|].
    unfold update_row. by destruct (decide (row_id row = workflowId)).
Qed.

Lemma workflow_status_is_overwritten_witness :
  find_workflow "1-a" (activeWorkflows (state completed_workflow_world))
  = Some {| wf_id := "1-a"; wf_name := "job"; wf_status := "completed" |}
  /\ match triggerWorkflow working_env "report" "{}" (initial_world 0) with
     | (Returned newId, w') =>
         activeWorkflows (state w')
         = [{| wf_id := newId; wf_name := "report"; wf_status := "pending" |}]
         /\ exists row,
              workflows_table w' = [row]
              /\ row_id row = newId /\ row_status row = "pending"
     | (Thrown e, _) => persistence_error working_env e
     end
  /\ match updateWorkflowStatus working_env "1-a" "running" None
            completed_workflow_world with
     | (Returned _, w') =>
         find_workflow "1-a" (activeWorkflows (state w'))
         = Some {| wf_id := "1-a"; wf_name := "job"; wf_status := "running" |}
         /\ map row_status (workflows_table w') = ["running"]
     | (Thrown e, _) => persistence_error working_env e
     end.
Proof.
  split; [vm_compute; reflexivity|]. split.
  - apply (workflow_status_is_overwritten working_env "report" "{}" "1-a"
             "running" None (initial_world 0)).
  - pose proof (workflow_status_is_overwritten working_env "report" "{}" "1-a"
                  "running" None completed_workflow_world) as [_ Hupdate].
    destruct (updateWorkflowStatus working_env "1-a" "running" None
                completed_workflow_world) as [[[]|e] w']; [|exact Hupdate].
    destruct Hupdate as (Hfind & _ & _ & _ & Hlen & Hrows).
    split.
    + apply (Hfind {| wf_id := "1-a"; wf_name := "job";
                      wf_status := "completed" |}).
      vm_compute. reflexivity.
    + destruct (Hrows 0%nat _ eq_refl) as (row' & Hrow' & _ & Hstatus).
      simpl in Hstatus. simpl in Hlen.
      destruct (workflows_table w') as [|r [|r2 rest]]; try discriminate Hlen.
      simpl in Hrow'. injection Hrow' as ->. simpl. by rewrite Hstatus.
Defined.

(* ===================================================================== *)
(** * The tool registry: log, rate limit, validation *)
(* ===================================================================== *)

Section RegistryFacts.

Context {X : Type}.
Implicit Types (reg : Registry X) (tool : Tool X) (env : CallEnv X).

Lemma tail_length {A} (l : list A) : length (tail l) = pred (length l).
Proof. by destruct l. Qed.

Lemma evict_oldest_length (logs : list ToolExecutionLog) log :
  (length logs <= 1000)%nat ->
  (length (evict_oldest (logs ++ [log])) <= 1000)%nat.
Proof.
  intros Hlen. unfold evict_oldest.
  destruct (1000 <? length (logs ++ [log]))%nat eqn:Hover.
  - rewrite tail_length, length_app. simpl. lia.
  - apply Nat.ltb_ge in Hover. exact Hover.
Qed.

Lemma checkRateLimit_logs n maxCalls per t reg :
  executionLogs (snd (checkRateLimit n maxCalls per t reg)) = executionLogs reg
  /\ tools (snd (checkRateLimit n maxCalls per t reg)) = tools reg.
Proof.
  unfold checkRateLimit.
  destruct (rateLimitTracker reg !! n) as [tracker|]; [|done].
  destruct (t >? trk_resetTime tracker); [done|].
  by destruct (trk_calls tracker >=? maxCalls).
Qed.

(** What [execute] does to the log, case by case. *)
Lemma validate_and_run_logs tool n params ctx env reg :
  executionLogs (snd (validate_and_run tool n params ctx env reg))
  = match validateParameters params (parameters tool) with
    | Some _ => executionLogs reg
    | None =>
        match execute tool params ctx (world env) with
        | Returned result =>
            evict_oldest (executionLogs reg ++
              [{| log_id := uuid env; log_toolName := n;
                  log_agentId := ctx_agentId ctx;
                  log_userId := ctx_userId ctx;
                  log_parameters := params; log_result := result;
                  log_timestamp := ctx_timestamp ctx;
                  log_duration := endTime env - startTime env |}])
        | Thrown _ => executionLogs reg
        end
    end.
Proof.
  unfold validate_and_run.
  destruct (validateParameters params (parameters tool)); [done|].
  by destruct (execute tool params ctx (world env)).
Qed.

Lemma validate_and_run_bound tool n params ctx env reg :
  (length (executionLogs reg) <= 1000)%nat ->
  (length (executionLogs (snd (validate_and_run tool n params ctx env reg)))
   <= 1000)%nat.
Proof.
  intros Hlen. rewrite validate_and_run_logs.
  destruct (validateParameters params (parameters tool)); [done|].
  destruct (execute tool params ctx (world env)); [|done].
  by apply evict_oldest_length.
Qed.

Lemma execute_tool_bound n params ctx env reg :
  (length (executionLogs reg) <= 1000)%nat ->
  (length (executionLogs (snd (execute_tool n params ctx env reg))) <= 1000)%nat.
Proof.
  intros Hlen. unfold execute_tool.
  destruct (tools reg !! n) as [tool|]; [|done].
  destruct (rateLimit tool) as [limit|]; [|by apply validate_and_run_bound].
  pose proof (checkRateLimit_logs n (calls limit) (period limit) (now env) reg)
    as [Hlogs _].
  destruct (checkRateLimit n (calls limit) (period limit) (now env) reg)
    as [[] reg1]; cbn [snd] in *.
  - apply validate_and_run_bound. by rewrite Hlogs.
  - by rewrite Hlogs.
Qed.

Lemma step_bound reg (op : Op X) :
  (length (executionLogs reg) <= 1000)%nat ->
  (length (executionLogs (step reg op)) <= 1000)%nat.
Proof.
  intros Hlen. destruct op as [tool|n params ctx env|]; simpl.
  - unfold register.
    destruct (tools reg !! name tool); [done|].
    by destruct (validateTool X tool).
  - by apply execute_tool_bound.
  - simpl. lia.
Qed.

(** After any sequence of operations on a new registry the log holds at
    most 1000 entries. *)
Lemma run_bound (ops : list (Op X)) :
  (length (executionLogs (run ops)) <= 1000)%nat.
Proof.
  unfold run.
  assert (Hgen : forall reg,
            (length (executionLogs reg) <= 1000)%nat ->
            (length (executionLogs (fold_left step ops reg)) <= 1000)%nat).
  { induction ops as [|op ops IH]; intros reg Hlen; simpl; [done|].
    apply IH. by apply step_bound. }
  apply Hgen. simpl. lia.
Qed.

End RegistryFacts.

(** C6, as stated, fails: a call for a tool that is not registered returns
    a failure result and leaves the execution log empty. *)
Lemma unknown_tool_call_is_not_logged :
  match execute_tool "nonexistent" ∅ sample_context (call_at 1000)
          (@empty_registry unit) with
  | (result, reg') =>
      success result = false
      /\ error result = Some "Tool 'nonexistent' not found"
      /\ length (executionLogs reg') = 0%nat
  end.
Proof. vm_compute. repeat split. Qed.

(** A tool body that throws is turned into a failure result; this call is
    not logged either. *)
Example throwing_tool_call_is_not_logged :
  match execute_tool "error_tool" ∅ sample_context (call_at 1000)
          (registry_with error_tool) with
  | (result, reg') =>
      success result = false
      /\ error result = Some "Tool error"
      /\ executionLogs reg' = []
  end.
Proof. vm_compute. repeat split. Qed.

(** The 1001st logged call evicts the entry of the first one. *)
Example log_evicts_oldest :
  length (executionLogs (run (calls_of_stats_tool 1000))) = 1000%nat
  /\ length (executionLogs (run (calls_of_stats_tool 1001))) = 1000%nat
  /\ log_id <$> head (executionLogs (run (calls_of_stats_tool 1000))) = Some "0"
  /\ log_id <$> head (executionLogs (run (calls_of_stats_tool 1001))) = Some "1"
  /\ log_id <$> last (executionLogs (run (calls_of_stats_tool 1001)))
     = Some "1000".
Proof. vm_compute. repeat split. Qed.

(** C6 (amended).  A call of [execute] whose tool body runs and returns a
    result, reporting success or failure, appends exactly one entry for it
    to the execution log, and the oldest entry is dropped when that makes
    more than 1000.  A call rejected before the body runs (unknown tool,
    rate limit exceeded, parameter validation failure) appends nothing.
    After any sequence of operations on a registry the log holds at most
    1000 entries. *)
Theorem execution_log_entries {X : Type}
    (reg : Registry X) (n : string) (params : Params) (ctx : ToolContext)
    (env : CallEnv X) (ops : list (Op X)) :
  match execute_tool n params ctx env reg with
  | (_, reg') =>
      match tools reg !! n with
      | None => executionLogs reg' = executionLogs reg
      | Some tool =>
          if rate_limit_passes tool n env reg then
            match validateParameters params (parameters tool) with
            | Some _ => executionLogs reg' = executionLogs reg
            | None =>
                match execute tool params ctx (world env) with
                | Returned result =>
                    executionLogs reg'
                    = evict_oldest (executionLogs reg ++
                        [{| log_id := uuid env; log_toolName := n;
                            log_agentId := ctx_agentId ctx;
                            log_userId := ctx_userId ctx;
                            log_parameters := params; log_result := result;
                            log_timestamp := ctx_timestamp ctx;
                            log_duration := endTime env - startTime env |}])
                | Thrown _ => True
                end
            end
          else executionLogs reg' = executionLogs reg
      end
  end
  /\ (length (executionLogs (run ops)) <= 1000)%nat.
Proof.
  split; [|apply run_bound].
  unfold execute_tool, rate_limit_passes.
  destruct (tools reg !! n) as [tool|]; [|done].
  destruct (rateLimit tool) as [limit|].
  - pose proof (checkRateLimit_logs n (calls limit) (period limit) (now env) reg)
      as [Hlogs _].
    destruct (checkRateLimit n (calls limit) (period limit) (now env) reg)
      as [[] reg1]; cbn [fst snd] in *; [|done].
    pose proof (validate_and_run_logs tool n params ctx env reg1) as H.
    destruct (validate_and_run tool n params ctx env reg1) as [r reg'].
    cbn [snd] in H. rewrite H, Hlogs.
    destruct (validateParameters params (parameters tool)); [done|].
    by destruct (execute tool params ctx (world env)).
  - pose proof (validate_and_run_logs tool n params ctx env reg) as H.
    destruct (validate_and_run tool n params ctx env reg) as [r reg'].
    cbn [snd] in H. rewrite H.
    destruct (validateParameters params (parameters tool)); [done|].
    by destruct (execute tool params ctx (world env)).
Qed.

Section RateLimit.

Context {X : Type}.
Implicit Types (reg : Registry X) (tool : Tool X) (env : CallEnv X).

Lemma callable_preserved reg reg' tool n limit params ctx :
  tools reg' = tools reg ->
  callable reg tool n limit params ctx -> callable reg' tool n limit params ctx.
Proof. intros Htools [? ? ? ?]. split; try done. by rewrite Htools. Qed.

(** The first call of a window: no tracker yet, or the window is over. *)
Lemma execute_tool_new_window reg tool n limit params ctx env :
  callable reg tool n limit params ctx ->
  match rateLimitTracker reg !! n with
  | None => True
  | Some tracker => now env > trk_resetTime tracker
  end ->
  exists r reg',
    execute_tool n params ctx env reg = (r, reg')
    /\ success r = true
    /\ tools reg' = tools reg
    /\ rateLimitTracker reg'
       = <[n := fresh_window (now env) (period limit)]> (rateLimitTracker reg).
Proof.
  intros [Hreg Hlimit Hvalid Hbody] Hwindow.
  destruct (Hbody (world env)) as (result & Hres & Hok).
  unfold execute_tool, validate_and_run, checkRateLimit.
  rewrite Hreg, Hlimit.
  destruct (rateLimitTracker reg !! n) as [tracker|].
  - assert (Hgt : (now env >? trk_resetTime tracker) = true)
      by (rewrite Z.gtb_ltb; apply Z.ltb_lt; lia).
    rewrite Hgt, Hvalid, Hres. by eexists _, _.
  - rewrite Hvalid, Hres. by eexists _, _.
Qed.

(** A further call inside the window, below the maximum. *)
Lemma execute_tool_within_window reg tool n limit params ctx env tracker :
  callable reg tool n limit params ctx ->
  rateLimitTracker reg !! n = Some tracker ->
  now env <= trk_resetTime tracker ->
  trk_calls tracker < calls limit ->
  exists r reg',
    execute_tool n params ctx env reg = (r, reg')
    /\ success r = true
    /\ tools reg' = tools reg
    /\ rateLimitTracker reg'
       = <[n := {| trk_calls := trk_calls tracker + 1;
                   trk_resetTime := trk_resetTime tracker |}]>
           (rateLimitTracker reg).
Proof.
  intros [Hreg Hlimit Hvalid Hbody] Htracker Hnow Hcalls.
  destruct (Hbody (world env)) as (result & Hres & Hok).
  unfold execute_tool, validate_and_run, checkRateLimit.
  rewrite Hreg, Hlimit, Htracker.
  assert (Hgt : (now env >? trk_resetTime tracker) = false)
    by (rewrite Z.gtb_ltb; apply Z.ltb_ge; lia).
  assert (Hge : (trk_calls tracker >=? calls limit) = false)
    by (rewrite Z.geb_leb; apply Z.leb_gt; lia).
  rewrite Hgt, Hge, Hvalid, Hres. by eexists _, _.
Qed.

(** A call inside the window once the maximum is reached. *)
Lemma execute_tool_over_limit reg tool n limit params ctx env tracker :
  callable reg tool n limit params ctx ->
  rateLimitTracker reg !! n = Some tracker ->
  now env <= trk_resetTime tracker ->
  calls limit <= trk_calls tracker ->
  execute_tool n params ctx env reg
  = (failure ("Rate limit exceeded for tool '" +:+ n
              +:+ "'. Please try again later.") None, reg).
Proof.
  intros [Hreg Hlimit Hvalid Hbody] Htracker Hnow Hcalls.
  unfold execute_tool, checkRateLimit.
  rewrite Hreg, Hlimit, Htracker.
  assert (Hgt : (now env >? trk_resetTime tracker) = false)
    by (rewrite Z.gtb_ltb; apply Z.ltb_ge; lia).
  assert (Hge : (trk_calls tracker >=? calls limit) = true)
    by (rewrite Z.geb_leb; apply Z.leb_le; lia).
  by rewrite Hgt, Hge.
Qed.

End RateLimit.

(** C8.  For a tool limited to 2 calls per 60 seconds whose parameters
    validate and whose body succeeds, three consecutive calls of [execute]
    inside one window (the second and third not later than the reset time
    set by the first) return success, success and a failure result: a
    record with [success = false], the rate-limit message as its [error],
    no data and no execution time; a fourth call after the reset time
    succeeds again and leaves the tracker at one call in a new window. *)
Theorem rate_limit_two_per_minute {X : Type}
    (reg : Registry X) (tool : Tool X) (n : string) (params : Params)
    (ctx : ToolContext) (e1 e2 e3 e4 : CallEnv X) :
  callable reg tool n {| calls := 2; period := 60 |} params ctx ->
  match rateLimitTracker reg !! n with
  | None => True
  | Some tracker => now e1 > trk_resetTime tracker
  end ->
  now e2 <= now e1 + 60000 ->
  now e3 <= now e1 + 60000 ->
  now e1 + 60000 < now e4 ->
  match execute_tool n params ctx e1 reg with
  | (r1, reg1) =>
  match execute_tool n params ctx e2 reg1 with
  | (r2, reg2) =>
  match execute_tool n params ctx e3 reg2 with
  | (r3, reg3) =>
  match execute_tool n params ctx e4 reg3 with
  | (r4, reg4) =>
      success r1 = true
      /\ success r2 = true
      /\ success r3 = false
      /\ error r3 = Some ("Rate limit exceeded for tool '" +:+ n
                          +:+ "'. Please try again later.")
      /\ data r3 = None
      /\ executionTime r3 = None
      /\ success r4 = true
      /\ rateLimitTracker reg4 !! n
         = Some {| trk_calls := 1; trk_resetTime := now e4 + 60000 |}
  end end end end.
Proof.
  intros Hcall Hfresh H2 H3 H4.
  destruct (execute_tool_new_window reg tool n _ params ctx e1 Hcall Hfresh)
    as (r1 & reg1 & -> & Hr1 & Htools1 & Htrk1).
  pose proof (callable_preserved _ _ _ _ _ _ _ Htools1 Hcall) as Hcall1.
  assert (Hlook1 : rateLimitTracker reg1 !! n
                   = Some (fresh_window (now e1) 60))
    by (by rewrite Htrk1, lookup_insert_eq).
  destruct (execute_tool_within_window reg1 tool n _ params ctx e2 _
              Hcall1 Hlook1) as (r2 & reg2 & -> & Hr2 & Htools2 & Htrk2);
    [simpl; lia | simpl; lia |].
  pose proof (callable_preserved _ _ _ _ _ _ _ Htools2 Hcall1) as Hcall2.
  assert (Hlook2 : rateLimitTracker reg2 !! n
                   = Some {| trk_calls := 2; trk_resetTime := now e1 + 60000 |})
    by (by rewrite Htrk2, lookup_insert_eq).
  rewrite (execute_tool_over_limit reg2 tool n _ params ctx e3 _ Hcall2 Hlook2);
    [|simpl; lia|simpl; lia].
  destruct (execute_tool_new_window reg2 tool n _ params ctx e4 Hcall2)
    as (r4 & reg4 & -> & Hr4 & Htools4 & Htrk4).
  { rewrite Hlook2. simpl. lia. }
  repeat split; try done.
  by rewrite Htrk4, lookup_insert_eq.
Qed.

Lemma rate_limit_two_per_minute_witness :
  callable (registry_with rate_limited_tool) rate_limited_tool "rate_limited"
    {| calls := 2; period := 60 |} ∅ sample_context
  /\ match execute_tool "rate_limited" ∅ sample_context (call_at 1000)
            (registry_with rate_limited_tool) with
     | (r1, reg1) =>
     match execute_tool "rate_limited" ∅ sample_context (call_at 2000) reg1 with
     | (r2, reg2) =>
     match execute_tool "rate_limited" ∅ sample_context (call_at 61000) reg2 with
     | (r3, reg3) =>
     match execute_tool "rate_limited" ∅ sample_context (call_at 61001) reg3 with
     | (r4, reg4) =>
         success r1 = true
         /\ success r2 = true
         /\ success r3 = false
         /\ error r3 = Some ("Rate limit exceeded for tool '"
                             +:+ "rate_limited"
                             +:+ "'. Please try again later.")
         /\ data r3 = None
         /\ executionTime r3 = None
         /\ success r4 = true
         /\ rateLimitTracker reg4 !! "rate_limited"
            = Some {| trk_calls := 1;
                      trk_resetTime := now (call_at 61001) + 60000 |}
     end end end end.
Proof.
  assert (Hcall : callable (registry_with rate_limited_tool) rate_limited_tool
                    "rate_limited" {| calls := 2; period := 60 |} ∅
                    sample_context).
  { split; [vm_compute; reflexivity | reflexivity | vm_compute; reflexivity |].
    intros x. exists ok_result. split; reflexivity. }
  split; [exact Hcall|].
  apply (rate_limit_two_per_minute (registry_with rate_limited_tool)
           rate_limited_tool "rate_limited" ∅ sample_context
           (call_at 1000) (call_at 2000) (call_at 61000) (call_at 61001) Hcall).
  - vm_compute. exact I.
  - simpl. lia.
  - simpl. lia.
  - simpl. lia.
Defined.

(** The validation on the inputs of the repository's tests: a missing
    required parameter, a wrong type, a string that is too short. *)
Example validateParameters_rejects :
  validateParameters ∅ (parameters echo_tool)
  = Some "Missing required parameter: text"
  /\ validateParameters {[ "text" := JsNumber 123 ]} (parameters echo_tool)
     = Some "Parameter 'text' must be of type 'string', got 'number'"
  /\ validateParameters {[ "text" := JsStr "ab" ]} (parameters echo_tool)
     = Some "Parameter 'text' must be at least 3 characters"
  /\ validateParameters {[ "text" := JsStr "abc" ]} (parameters echo_tool) = None.
Proof. vm_compute. repeat split. Qed.

(** [in] and [params[key]] see what the parameter object inherits: on the
    empty object a required [toString] is not missing, and a declared
    [constructor] is checked on the inherited function. *)
Example validateParameters_inherited :
  validateParameters ∅ requires_toString_schema = None
  /\ validateParameters ∅ declares_constructor_schema
     = Some "Parameter 'constructor' must be of type 'string', got 'function'"
  /\ validateParameters {[ "constructor" := JsStr "abc" ]}
       declares_constructor_schema = None.
Proof. vm_compute. repeat split. Qed.

Section UndeclaredParameters.

Implicit Types (params extra : Params).





End UndeclaredParameters.



(** The extra entry indeed arrives at the body of [echo_tool]. *)
Example echo_receives_undeclared_parameter :
  data (fst (execute_tool "echo"
               ({[ "text" := JsStr "abc" ]} ∪ {[ "debug" := JsBool true ]})
               sample_context (call_at 1000) (registry_with echo_tool)))
  = Some (JsObject [("text", JsStr "abc"); ("debug", JsBool true)]).
Proof. vm_compute. reflexivity. Qed.

(* ===================================================================== *)
(** * More on the helpers *)
(* ===================================================================== *)

Section HelperFacts.

Lemma rev_length (s : string) : String.length (String.rev s) = String.length s.
Proof.
  induction s as [|c s IH]; [done|].
  rewrite rev_cons, length_app_str, IH. simpl. lia.
Qed.

Lemma trimStart_length (s : string) :
  (String.length (JsString.trimStart s) <= String.length s)%nat.
Proof.
  induction s as [|c s IH]; simpl; [done|].
  destruct (JsString.is_white_space c); simpl; lia.
Qed.

Lemma trim_length (s : string) :
  (String.length (JsString.trim s) <= String.length s)%nat.
Proof.
  unfold JsString.trim, JsString.trimEnd. rewrite rev_length.
  pose proof (trimStart_length (String.rev (JsString.trimStart s))) as H1.
  rewrite rev_length in H1.
  pose proof (trimStart_length s). lia.
Qed.

Lemma remove_all_length (p : ascii -> bool) (s : string) :
  (String.length (JsString.remove_all p s) <= String.length s)%nat.
Proof.
  induction s as [|c s IH]; simpl; [done|].
  destruct (p c); simpl; lia.
Qed.

Lemma remove_all_clean (p : ascii -> bool) (s : string) :
  Forall (fun c => p c = false) (list_ascii_of_string (JsString.remove_all p s)).
Proof.
  induction s as [|c s IH]; simpl; [constructor|].
  destruct (p c) eqn:Hp; simpl; [done|]. by constructor.
Qed.

Lemma substring_to_length (k : nat) (s : string) :
  String.length (String.substring 0 k s) = Nat.min k (String.length s).
Proof.
  revert s. induction k as [|k IH]; intros s; destruct s as [|c s]; simpl; try done.
  by rewrite IH.
Qed.

Lemma substring_to_prefix (k : nat) (s : string) :
  String.prefix (String.substring 0 k s) s = true.
Proof.
  revert s. induction k as [|k IH]; intros s; destruct s as [|c s]; simpl; try done.
  rewrite IH. by destruct (ascii_dec c c).
Qed.

End HelperFacts.

(** X1.  [sanitizeInput] never returns an angle bracket and never returns
    more characters than it was given. *)
Theorem sanitizeInput_output (input : string) :
  Forall (fun c => Helpers.is_angle_bracket c = false)
    (list_ascii_of_string (Helpers.sanitizeInput input))
  /\ (String.length (Helpers.sanitizeInput input) <= String.length input)%nat.
Proof.
  unfold Helpers.sanitizeInput. split; [apply remove_all_clean|].
  pose proof (remove_all_length Helpers.is_angle_bracket (JsString.trim input)).
  pose proof (trim_length input). lia.
Qed.

(** X2.  [truncate] returns the text itself when it has at most [maxLength]
    characters.  Otherwise it returns the first [maxLength - 3] characters
    of the text (none when [maxLength] is below 3) followed by three dots:
    [maxLength] characters in all, or 3 when [maxLength] is below 3. *)
Theorem truncate_result (text : string) (maxLength : Z) :
  (Z.of_nat (String.length text) <= maxLength ->
   Helpers.truncate text maxLength = text)
  /\ (maxLength < Z.of_nat (String.length text) ->
      exists kept,
        Helpers.truncate text maxLength = kept +:+ "..."
        /\ String.prefix kept text = true
        /\ Z.of_nat (String.length kept) = Z.max (maxLength - 3) 0
        /\ Z.of_nat (String.length (Helpers.truncate text maxLength))
           = Z.max maxLength 3).
Proof.
  unfold Helpers.truncate, JsString.substring_to. split.
  - intros Hfit. by rewrite (proj2 (Z.leb_le _ _) Hfit).
  - intros Hlong. rewrite (proj2 (Z.leb_gt _ _) Hlong).
    eexists. split; [reflexivity|].
    split; [apply substring_to_prefix|].
    rewrite length_app_str, !substring_to_length. simpl. lia.
Qed.

(** X3.  [estimateTokenCount] is the number of blocks of four characters
    needed to cover the text: four times the estimate is at least the
    length and exceeds it by at most three. *)
Theorem estimateTokenCount_blocks (text : string) :
  Z.of_nat (String.length text) <= 4 * Helpers.estimateTokenCount text
  /\ 4 * Helpers.estimateTokenCount text <= Z.of_nat (String.length text) + 3.
Proof.
  unfold Helpers.estimateTokenCount.
  pose proof (ceil_div_4_bounds (Z.of_nat (String.length text))). lia.
Qed.

(** X4.  Estimating two texts one by one never gives less than estimating
    their concatenation, and at most one token more. *)
Theorem estimateTokenCount_concat (a b : string) :
  Helpers.estimateTokenCount (a +:+ b)
  <= Helpers.estimateTokenCount a + Helpers.estimateTokenCount b
  /\ Helpers.estimateTokenCount a + Helpers.estimateTokenCount b
     <= Helpers.estimateTokenCount (a +:+ b) + 1.
Proof.
  unfold Helpers.estimateTokenCount. rewrite length_app_str.
  pose proof (ceil_div_4_bounds (Z.of_nat (String.length a))).
  pose proof (ceil_div_4_bounds (Z.of_nat (String.length b))).
  pose proof (ceil_div_4_bounds
                (Z.of_nat (String.length a + String.length b))).
  lia.
Qed.

(* ===================================================================== *)
(** * Retry with backoff *)
(* ===================================================================== *)

Section Retry.

Variable env : Env.

(** The loop of [retry], entered with [remaining] attempts left: it ends
    with the first attempt that resolves, or with the last attempt. *)
Lemma retry_from_AI_run (model : string) (n : nat) (d : Z) (j : nat) :
  forall (remaining : nat) (lastError : string) (w : World),
  (remaining <= n)%nat ->
  (j < remaining)%nat ->
  (forall i, (i < j)%nat ->
     exists e, ai_run env (interactions w + i) = AIRejects e) ->
  (S j = remaining \/ exists r, ai_run env (interactions w + j) = AIResolves r) ->
  retry_from (AI_run env model) n d remaining lastError w
  = (match ai_run env (interactions w + j) with
     | AIRejects e => Thrown e
     | AIResolves r => Returned r
     end,
     after_calls (S j)
       (backoff_trace model d (n - remaining) j ++ [EffAIRun model]) w).
Proof.
  induction j as [|j IH]; intros remaining lastError w Hn Hj Hfail Hlast.
  - destruct remaining as [|remaining]; [lia|].
    simpl retry_from.
    destruct (n - S remaining <? n - 1)%nat eqn:Hlt;
      unfold try_catch; unfold AI_run at 1;
      unfold bind, record, modify, interact, sleep; cbn;
      rewrite Nat.add_0_r;
      destruct (ai_run env (interactions w)) as [e|r] eqn:Hrun; cbn;
      try (f_equal; unfold after_calls; cbn; f_equal; lia).
    + apply Nat.ltb_lt in Hlt.
      destruct Hlast as [Hlast|[r Hr]];
        [lia | rewrite Nat.add_0_r in Hr; congruence].
    + destruct Hlast as [Hlast|[r Hr]];
        [|rewrite Nat.add_0_r in Hr; congruence].
      assert (remaining = 0%nat) as -> by lia.
      cbn. f_equal. unfold after_calls. cbn. f_equal. lia.
  - destruct remaining as [|remaining]; [lia|].
    destruct (Hfail 0%nat) as [e He]; [lia|]. rewrite Nat.add_0_r in He.
    simpl retry_from.
    replace (n - S remaining <? n - 1)%nat with true
      by (symmetry; apply Nat.ltb_lt; lia).
    unfold try_catch. unfold AI_run at 1.
    unfold bind at 1 2. unfold record, modify, interact. cbn.
    rewrite He. cbn.
    set (w1 := set_trace _ _).
    rewrite (IH remaining e w1); [| lia | lia | | ].
    + subst w1. cbn.
      replace (interactions w + S j)%nat with (S (interactions w + j)) by lia.
      f_equal.
      replace (n - remaining)%nat with (S (n - S remaining)) by lia.
      unfold after_calls, set_interactions, set_trace. cbn.
      f_equal; [lia | by rewrite <- !app_assoc].
    + intros i Hi. subst w1. cbn.
      destruct (Hfail (S i)) as [e' He']; [lia|].
      exists e'. rewrite <- He'. f_equal. lia.
    + subst w1. cbn. destruct Hlast as [Hlast|[r Hr]]; [left; lia|].
      right. exists r. rewrite <- Hr. f_equal. lia.
Qed.

Lemma slept_backoff (model : string) (d : Z) (j : nat) :
  forall i, slept (backoff_trace model d i j)
            = d * 2 ^ Z.of_nat i * (2 ^ Z.of_nat j - 1).
Proof.
  induction j as [|j IH]; intros i; simpl backoff_trace; simpl slept.
  - simpl. lia.
  - rewrite IH.
    replace (Z.of_nat (S i)) with (Z.of_nat i + 1) by lia.
    replace (Z.of_nat (S j)) with (Z.of_nat j + 1) by lia.
    rewrite !Z.pow_add_r by lia. lia.
Qed.

Lemma slept_app (t1 t2 : list Effect) : slept (t1 ++ t2) = slept t1 + slept t2.
Proof.
  induction t1 as [|[model|ms] t1 IH]; simpl; [done| |]; rewrite IH; lia.
Qed.

End Retry.

(** X5.  [retry] around a call of Workers AI makes its attempts one after
    the other, pausing [delayMs * 2 ^ i] after failed attempt [i] and not
    at all after the last one; it ends with the first attempt that
    resolves, or throws the error of the last of its [maxRetries] attempts.
    After [j] failures it has slept [delayMs * (2 ^ j - 1)] ms in all. *)
Theorem retry_backoff_schedule
    (env : Env) (model : string) (maxRetries : nat) (delayMs : Z)
    (j : nat) (w : World) :
  (j < maxRetries)%nat ->
  (forall i, (i < j)%nat ->
     exists e, ai_run env (interactions w + i) = AIRejects e) ->
  (S j = maxRetries
   \/ exists r, ai_run env (interactions w + j) = AIResolves r) ->
  retry (AI_run env model) maxRetries delayMs w
  = (match ai_run env (interactions w + j) with
     | AIRejects e => Thrown e
     | AIResolves r => Returned r
     end,
     after_calls (S j) (backoff_trace model delayMs 0 j ++ [EffAIRun model]) w)
  /\ slept (backoff_trace model delayMs 0 j ++ [EffAIRun model])
     = delayMs * (2 ^ Z.of_nat j - 1).
Proof.
  intros Hj Hfail Hlast. split.
  - unfold retry.
    rewrite (retry_from_AI_run env model maxRetries delayMs j maxRetries
               "undefined" w); [|lia|lia|done|done].
    by rewrite Nat.sub_diag.
  - rewrite slept_app, slept_backoff. simpl. lia.
Qed.

Lemma retry_backoff_schedule_witness :
  retry (AI_run inference_down_env LLM_MODEL) 3 1000 (initial_world 0)
  = (Thrown "AI Error",
     after_calls 3
       [EffAIRun LLM_MODEL; EffSleep 1000; EffAIRun LLM_MODEL; EffSleep 2000;
        EffAIRun LLM_MODEL] (initial_world 0))
  /\ slept (backoff_trace LLM_MODEL 1000 0 2 ++ [EffAIRun LLM_MODEL]) = 3000.
Proof.
  apply (retry_backoff_schedule inference_down_env LLM_MODEL 3 1000 2
           (initial_world 0)).
  - lia.
  - intros i Hi. exists "AI Error". reflexivity.
  - left. reflexivity.
Defined.

(* ===================================================================== *)
(** * Inference and memory, step by step *)
(* ===================================================================== *)

(** X6.  [generateAIResponse] is decided by the first attempt that
    resolves: after [j < 3] rejected attempts, an answer with text is
    returned, an answer without text gives the apology at once and is not
    retried; three rejected attempts give the apology.  It makes [j + 1]
    calls of the primary model and no other call. *)
Theorem generateAIResponse_decided
    (env : Env) (messages : list PromptMessage) (j : nat) (w : World) :
  (j < 3)%nat ->
  (forall i, (i < j)%nat ->
     exists e, ai_run env (interactions w + i) = AIRejects e) ->
  (S j = 3%nat \/ exists r, ai_run env (interactions w + j) = AIResolves r) ->
  generateAIResponse env messages w
  = (Returned (match ai_run env (interactions w + j) with
               | AIRejects _ => APOLOGY
               | AIResolves resp => text_or_apology resp
               end),
     after_calls (S j)
       (backoff_trace LLM_MODEL 1000 0 j ++ [EffAIRun LLM_MODEL]) w).
Proof.
  intros Hj Hfail Hlast.
  unfold generateAIResponse, try_catch, bind, retry.
  rewrite (retry_from_AI_run env LLM_MODEL 3 1000 j 3 "undefined" w);
    [|lia|lia|done|done].
  rewrite Nat.sub_diag. unfold text_or_apology.
  destruct (ai_run env (interactions w + j)) as [e|resp]; [done|].
  destruct (resp_response resp) as [text|]; [|done].
  by destruct (JsString.truthy text).
Qed.

Lemma generateAIResponse_decided_witness :
  generateAIResponse working_env [] (initial_world 0)
  = (Returned "Hello there", after_calls 1 [EffAIRun LLM_MODEL] (initial_world 0)).
Proof.
  apply (generateAIResponse_decided working_env [] 0 (initial_world 0)).
  - lia.
  - intros i Hi. lia.
  - right. exists sample_response. reflexivity.
Defined.

(** X7.  [storeInMemory] is best effort: it always returns normally,
    leaves the agent state, the SQL tables, the stored state and the sockets
    alone, and adds at most one vector, built from the content and the
    message id it was given. *)
Theorem storeInMemory_best_effort
    (env : Env) (content type messageId uid : string) (role : Role) (w : World) :
  match storeInMemory env content type messageId uid role w with
  | (r, w') =>
      r = Returned tt
      /\ untouched w w'
      /\ (vector_index w' = vector_index w
          \/ exists v,
               vector_index w' = vector_index w ++ [v]
               /\ vec_content v = content
               /\ vec_messageId v = messageId
               /\ vec_role v = role)
  end.
Proof.
  unfold storeInMemory, generateEmbedding. run_m.
  destruct (ai_run env (interactions w)) as [e|resp]; cbn.
  - split; [done|]. split; [by split|by left].
  - destruct (resp_data0 resp) as [embedding|]; cbn.
    + destruct (vectorize_upsert env _); cbn;
        (split; [done|]); (split; [by split|]); [by left|].
      right. eexists. by split.
    + split; [done|]. split; [by split|by left].
Qed.

(** X8.  [searchMemory] is best effort: it always returns normally and
    changes nothing but the interaction count and the trace.  When the
    embedding model answers with a vector and the query that follows is
    answered, the result is exactly that answer; when the embedding call is
    rejected or gives no vector, or the query is rejected, it is the empty
    list. *)
Theorem searchMemory_best_effort (env : Env) (query : string) (w : World) :
  match searchMemory env query w with
  | (r, w') =>
      untouched w w'
      /\ vector_index w' = vector_index w
      /\ r = Returned
               match ai_run env (interactions w) with
               | AIRejects _ => []
               | AIResolves resp =>
                   match resp_data0 resp with
                   | None => []
                   | Some _ =>
                       match vectorize_query env (S (interactions w)) with
                       | inl _ => []
                       | inr memories => memories
                       end
                   end
               end
  end.
Proof.
  unfold searchMemory, generateEmbedding. run_m.
  destruct (ai_run env (interactions w)) as [e|resp]; cbn.
  - split; [by split|]. done.
  - destruct (resp_data0 resp) as [embedding|]; cbn.
    + destruct (vectorize_query env _) as [e|memories] eqn:Hq; cbn;
        (split; [by split|]); done.
    + split; [by split|]. done.
Qed.

(* ===================================================================== *)
(** * Context assembly and the history window *)
(* ===================================================================== *)

Section HistoryWindow.

(** The loop stops only at the end of the history or at a message that
    does not fit. *)
Lemma select_history_maximal (recent : list Message) :
  forall (tokenCount : Z) (messages : list PromptMessage),
  exists n : nat,
    select_history recent tokenCount messages
      = rev (map prompt_of (take n recent)) ++ messages
    /\ (n = length recent
        \/ exists msg,
             recent !! n = Some msg
             /\ MAX_CONTEXT_TOKENS
                < tokenCount + segments_tokens (map prompt_of (take n recent))
                  + Helpers.estimateTokenCount (msg_content msg)).
Proof.
  induction recent as [|msg rest IH]; intros tokenCount messages.
  - exists 0%nat. split; [done|by left].
  - simpl select_history.
    destruct (tokenCount + Helpers.estimateTokenCount (msg_content msg)
              >? MAX_CONTEXT_TOKENS) eqn:Hover.
    + exists 0%nat. split; [done|]. right. exists msg. split; [done|].
      apply Z.gtb_lt in Hover. unfold segments_tokens. simpl. lia.
    + destruct (IH (tokenCount + Helpers.estimateTokenCount (msg_content msg))
                  ({| pm_role := msg_role msg; pm_content := msg_content msg |}
                   :: messages)) as (n & Heq & Hstop).
      exists (S n). split.
      * rewrite Heq. simpl. by rewrite <- app_assoc.
      * destruct Hstop as [->|(next & Hnext & Hbig)]; [by left|].
        right. exists next. split; [done|].
        simpl take. simpl map.
        change (segments_tokens (prompt_of msg :: map prompt_of (take n rest)))
          with (Helpers.estimateTokenCount (msg_content msg)
                + segments_tokens (map prompt_of (take n rest))).
        lia.
Qed.

Lemma trimmed_snoc2 (h : list Message) (a b : Message) :
  trimmed (h ++ [a; b])
  = drop (length h + 2 - MAX_HISTORY_MESSAGES) h ++ [a; b].
Proof.
  unfold trimmed. rewrite length_app. simpl length.
  destruct (MAX_HISTORY_MESSAGES <? length h + 2)%nat eqn:Hlong.
  - apply Nat.ltb_lt in Hlong. apply drop_app_le.
    unfold MAX_HISTORY_MESSAGES in *. lia.
  - apply Nat.ltb_ge in Hlong.
    replace (length h + 2 - MAX_HISTORY_MESSAGES)%nat with 0%nat by lia.
    done.
Qed.

End HistoryWindow.

(** X9.  [buildContext] takes the longest run of most recent messages that
    fits: it selects the [n] newest messages, and either these are the whole
    history or the next older message would push the running total over
    [MAX_CONTEXT_TOKENS].  No older message is taken once one did not fit. *)
Theorem buildContext_longest_fit (history : list Message) (memories : list Memory) :
  exists n : nat,
    buildContext_of history memories
    = rev (map prompt_of (take n (rev history))) ++ system_segments memories
    /\ (n = length history
        \/ exists msg,
             rev history !! n = Some msg
             /\ MAX_CONTEXT_TOKENS
                < initial_tokenCount memories
                  + segments_tokens (map prompt_of (take n (rev history)))
                  + Helpers.estimateTokenCount (msg_content msg)).
Proof.
  unfold buildContext_of.
  destruct (select_history_maximal (rev history) (initial_tokenCount memories)
              (system_segments memories)) as (n & Heq & Hstop).
  exists n. split; [done|].
  destruct Hstop as [->|Hstop]; [left; apply length_rev | by right].
Qed.

(** X10.  After a turn of [processMessage] the cached history ends with the
    user message and the reply of the turn, holds at most
    [MAX_HISTORY_MESSAGES] messages, all older ones being the most recent of
    the previous cache, while the SQL table has grown by exactly these two
    messages: trimming the cache never touches the durable log. *)
Theorem processMessage_history_window
    (env : Env) (content : string) (uid : option string) (w : World) :
  match processMessage env content uid w with
  | (Returned am, w') =>
      exists um,
        conversationHistory (state w')
        = drop (length (conversationHistory (state w)) + 2 - MAX_HISTORY_MESSAGES)
            (conversationHistory (state w)) ++ [um; am]
        /\ (length (conversationHistory (state w')) <= MAX_HISTORY_MESSAGES
            \/ length (conversationHistory (state w')) = 2)%nat
        /\ messages_table w' = messages_table w ++ [um; am]
  | (Thrown e, _) => persistence_error env e
  end.
Proof.
  pose proof (processMessage_spec env content uid w) as H. unfold wp in H.
  destruct (processMessage env content uid w) as [[am|e] w'];
    destruct H as (_ & _ & H); [|exact H].
  destruct H as [um Hturn]. destruct Hturn. cbn [fst snd] in *.
  exists um. rewrite turn_history0, trimmed_snoc2. split; [done|].
  split; [|done].
  rewrite length_app, length_drop. simpl. unfold MAX_HISTORY_MESSAGES. lia.
Qed.

(* ===================================================================== *)
(** * Clearing the history, connections and the HTTP entry point *)
(* ===================================================================== *)

(** X11.  [clearHistory] is not atomic.  When it returns, the SQL table and
    the cached history are empty and the cleared state is what the durable
    storage holds.  When the [DELETE] is rejected nothing has changed.  When
    only [storage.put] is rejected, the messages are already deleted and the
    cache is empty, while the durable storage still holds the state saved
    before. *)
Theorem clearHistory_outcome (env : Env) (w : World) :
  match clearHistory env w with
  | (Returned _, w') =>
      messages_table w' = []
      /\ conversationHistory (state w') = []
      /\ storage_state w' = Some (state w')
      /\ activeWorkflows (state w') = activeWorkflows (state w)
      /\ workflows_table w' = workflows_table w
      /\ sockets w' = sockets w
  | (Thrown e, w') =>
      (sql_exec env (interactions w) = Some e /\ untouched w w')
      \/ (sql_exec env (interactions w) = None
          /\ storage_put env (interactions w + 2) = Some e
          /\ messages_table w' = []
          /\ conversationHistory (state w') = []
          /\ storage_state w' = storage_state w)
  end.
Proof.
  unfold clearHistory, saveState. run_m.
  destruct (sql_exec env (interactions w)) as [e|] eqn:Hsql; cbn.
  - left. split; [done|]. by split.
  - replace (interactions w + 2)%nat with (S (S (interactions w))) by lia.
    destruct (storage_put env (S (S (interactions w)))) as [e|] eqn:Hput; cbn.
    + right. by repeat split.
    + by repeat split.
Qed.

Section Connections.

Variable env : Env.

Lemma clearHistory_spec w :
  wp (clearHistory env) w (fun r w' =>
    sockets w' = sockets w
    /\ match r with
       | Returned _ =>
           messages_table w' = [] /\ conversationHistory (state w') = []
       | Thrown e => persistence_error env e
       end).
Proof.
  unfold clearHistory, saveState. run_m.
  destruct (sql_exec env (interactions w)) as [e|] eqn:Hsql; cbn.
  - split; [done|]. exists (interactions w). by left.
  - destruct (storage_put env (S (S (interactions w)))) as [e|] eqn:Hput; cbn.
    + split; [done|]. exists (S (S (interactions w))). by right.
    + done.
Qed.

Lemma handleWebSocket_returns w :
  exists conn, fst (handleWebSocket env w) = Returned conn.
Proof. unfold handleWebSocket. run_m. eauto. Qed.

End Connections.

(** X12.  Opening a connection with [handleWebSocket] creates one new socket
    that holds exactly the welcome frame, leaves every existing socket as it
    was and registers the socket under the new connection id.  Closing it
    removes that id: the connection map is then the previous one without the
    id, so an older connection that carried the same id is gone as well. *)
Theorem connection_open_then_close (env : Env) (w : World) :
  exists connectionId t,
    let server := length (sockets w) in
    let w1 := snd (handleWebSocket env w) in
    let w2 := snd (on_close (connectionId, server) w1) in
    fst (handleWebSocket env w) = Returned (connectionId, server)
    /\ sockets w1
       = sockets w ++ [[WsConnected "Connected to AI Agent" (storage_id env)
                          connectionId t]]
    /\ activeConnections w1 = <[connectionId := server]> (activeConnections w)
    /\ activeConnections w2 = delete connectionId (activeConnections w)
    /\ sockets w2 = sockets w1
    /\ state w2 = state w
    /\ messages_table w2 = messages_table w.
Proof.
  unfold handleWebSocket, on_close. run_m.
  eexists _, _. split; [reflexivity|].
  split.
  - unfold sendWebSocketMessage, modify. cbn.
    replace (length (sockets w)) with (length (sockets w) + 0)%nat at 1 by lia.
    by rewrite alter_app_r.
  - unfold sendWebSocketMessage, modify. cbn.
    split; [done|]. split; [by rewrite delete_insert_eq|]. done.
Qed.

(** X13.  On a frame that parses to an object (with a string [content]
    when it is a chat message), the ['message'] listener never throws and
    touches no socket but the sender's.  A chat message is answered by a
    typing indicator and at least one more frame, [ping] by one [pong],
    [get_history] by the cached history, [clear_history] by a confirmation
    once table and cache are empty or else by one error frame carrying the
    persistence error; a frame of any other type is dropped without an
    answer and without any change. *)
Theorem on_message_replies (env : Env) (conn : string * nat)
    (data : ClientMessage) (w : World) :
  wp (on_message env conn data) w (fun r w' =>
    r = Returned tt
    /\ exists frames,
         sent (snd conn) frames w w' /\ reply_frames env data w w' frames).
Proof.
  destruct conn as [connectionId ws]. unfold on_message. cbn [fst snd].
  apply wp_try_catch.
  destruct data as [content userId| | | |type]; unfold handleWebSocketMessage.
  - eapply wp_mono; [apply handleChatMessage_spec|].
    intros r w' [-> (frames & Hsent & Hcases)].
    split; [done|]. exists frames. split; [done|].
    destruct Hcases as [(um & am & (t & tokens & t' & -> & _) & _)
                       |(e & (t & t' & ->) & _)].
    + exists t, (tokens ++ [WsMessageComplete (msg_id am) t']).
      split; [done|]. by destruct tokens.
    + by eexists _, _.
  - apply wp_bind, wp_Date_now, wp_send. split; [done|].
    eexists. split.
    + apply (sent_one ws _ (set_interactions (S (interactions w)) w)).
    + by eexists.
  - apply wp_bind, wp_get. apply wp_bind, wp_Date_now, wp_send.
    split; [done|]. eexists. split.
    + apply (sent_one ws _ (set_interactions (S (interactions w)) w)).
    + by eexists.
  - apply wp_bind. eapply wp_mono; [apply clearHistory_spec|].
    intros [[]|e] w' [Hsock Hres].
    + destruct Hres as [Hm Hh].
      apply wp_bind, wp_Date_now, wp_send. split; [done|].
      eexists. split.
      * eapply (sent_trans ws [] [_] w w'); [by apply sent_nothing|].
        apply (sent_one ws _ (set_interactions (S (interactions w')) w')).
      * left. by eexists.
    + apply wp_bind, wp_Date_now, wp_send. split; [done|].
      eexists. split.
      * eapply (sent_trans ws [] [_] w w'); [by apply sent_nothing|].
        apply (sent_one ws _ (set_interactions (S (interactions w')) w')).
      * right. by eexists _, _.
  - apply wp_ret. split; [done|]. exists []. split; [by apply sent_nothing|].
    done.
Qed.

(** X14.  On a request whose URL parses and whose body, when it is read,
    is an object with a string [content] or fails to parse, [fetch] never
    throws.  It answers 101 exactly to an upgrade request, and otherwise 200
    with a body that is not an error, or 500 with an error body; the 500
    occurs only for a [POST], and its text is the rejection of
    [request.json()] or a persistence error. *)
Theorem fetch_statuses (env : Env) (request : Request) (w : World) :
  exists resp,
    fst (fetch env request w) = Returned resp
    /\ match resp with
       | UpgradeResponse _ _ => req_upgrade request = Some "websocket"
       | JsonResponse status body =>
           req_upgrade request <> Some "websocket"
           /\ ((status = 200 /\ forall e, body <> BodyError e)
               \/ (status = 500
                   /\ req_method request = "POST"
                   /\ exists e,
                        body = BodyError e
                        /\ (req_json request = inl e
                            \/ persistence_error env e)))
       end.
Proof.
  unfold fetch, try_catch.
  destruct (bool_decide (req_upgrade request = Some "websocket")) eqn:Hup.
  { apply bool_decide_eq_true in Hup.
    destruct (handleWebSocket_returns env w) as [conn Hconn].
    unfold bind at 1.
    destruct (handleWebSocket env w) as [r w']. cbn in Hconn. subst r.
    cbn. eauto. }
  apply bool_decide_eq_false in Hup.
  destruct (JsString.endsWith "/health" (req_pathname request)).
  { cbn. eexists. split; [reflexivity|]. split; [done|]. left. done. }
  destruct (JsString.endsWith "/history" (req_pathname request)).
  { cbn. eexists. split; [reflexivity|]. split; [done|]. left. done. }
  destruct (JsString.endsWith "/message" (req_pathname request)
            && String.eqb (req_method request) "POST")%bool eqn:Hmsg.
  { apply andb_true_iff in Hmsg as [_ Hpost]. apply String.eqb_eq in Hpost.
    destruct (req_json request) as [e|[content userId]] eqn:Hjson.
    - cbn. eexists. split; [reflexivity|]. split; [done|]. right.
      split; [done|]. split; [done|]. exists e. auto.
    - pose proof (processMessage_spec env content userId w) as H.
      unfold wp in H. unfold bind.
      destruct (processMessage env content userId w) as [[am|e] w'];
        destruct H as (_ & _ & H); cbn.
      + eexists. split; [reflexivity|]. split; [done|]. left. done.
      + eexists. split; [reflexivity|]. split; [done|]. right.
        split; [done|]. split; [done|]. exists e. auto. }
  destruct (JsString.endsWith "/context" (req_pathname request)).
  { cbn. eexists. split; [reflexivity|]. split; [done|]. left. done. }
  destruct (JsString.endsWith "/clear" (req_pathname request)
            && String.eqb (req_method request) "POST")%bool eqn:Hclear.
  { apply andb_true_iff in Hclear as [_ Hpost]. apply String.eqb_eq in Hpost.
    pose proof (clearHistory_spec env w) as H. unfold wp in H.
    unfold bind.
    destruct (clearHistory env w) as [[[]|e] w']; destruct H as (_ & H); cbn.
    - eexists. split; [reflexivity|]. split; [done|]. left. done.
    - eexists. split; [reflexivity|]. split; [done|]. right.
      split; [done|]. split; [done|]. exists e. auto. }
  cbn. eexists. split; [reflexivity|]. split; [done|]. left. done.
Qed.

(** X15.  A request that is neither an upgrade nor a [POST] is read-only:
    [fetch] answers 200 and leaves the agent exactly as it was.  This holds
    for the message and clear routes too, which answer such a request like
    an unknown path instead of rejecting it. *)
Theorem fetch_reads_only (env : Env) (request : Request) (w : World) :
  req_upgrade request <> Some "websocket" ->
  String.eqb (req_method request) "POST" = false ->
  snd (fetch env request w) = w
  /\ exists body, fst (fetch env request w) = Returned (JsonResponse 200 body).
Proof.
  intros Hup Hmethod. unfold fetch, try_catch.
  rewrite bool_decide_eq_false_2 by done. rewrite Hmethod, !andb_false_r.
  destruct (JsString.endsWith "/health" (req_pathname request));
    [cbn; eauto|].
  destruct (JsString.endsWith "/history" (req_pathname request));
    [cbn; eauto|].
  destruct (JsString.endsWith "/context" (req_pathname request));
    [cbn; eauto|].
  cbn; eauto.
Qed.

Lemma fetch_reads_only_witness :
  snd (fetch working_env get_message_request (initial_world 0)) = initial_world 0
  /\ exists body,
       fst (fetch working_env get_message_request (initial_world 0))
       = Returned (JsonResponse 200 body).
Proof.
  apply (fetch_reads_only working_env get_message_request (initial_world 0)).
  - discriminate.
  - reflexivity.
Defined.

(* ===================================================================== *)
(** * Workflow updates *)
(* ===================================================================== *)

Section WorkflowUpdates.

Lemma set_status_of_first_absent (workflowId status : string)
    (l : list WorkflowDefinition) :
  find_workflow workflowId l = None ->
  set_status_of_first workflowId status l = l.
Proof.
  unfold find_workflow.
  induction l as [|x l IH]; simpl; [done|].
  destruct (decide (wf_id x = workflowId)) as [Heq|Hne].
  - by rewrite (bool_decide_eq_true_2 _ Heq).
  - rewrite (bool_decide_eq_false_2 _ Hne). intros Hfind. by rewrite IH.
Qed.

Lemma update_row_absent (workflowId status : string) (result : option string)
    (now : Z) (rows : list WorkflowRow) :
  Forall (fun r => row_id r <> workflowId) rows ->
  map (update_row workflowId status result now) rows = rows.
Proof.
  induction 1 as [|r rows Hr _ IH]; simpl; [done|].
  rewrite IH. unfold update_row. by rewrite decide_False.
Qed.

End WorkflowUpdates.

(** X16.  [updateWorkflowStatus] on an id that neither the table nor the
    cache knows is a silent no-op: it returns normally (unless persistence
    fails) and both the table and the cached workflows are what they were.
    An unknown workflow id is not reported. *)
Theorem updateWorkflowStatus_unknown_id
    (env : Env) (workflowId status : string) (result : option string)
    (w : World) :
  Forall (fun r => row_id r <> workflowId) (workflows_table w) ->
  find_workflow workflowId (activeWorkflows (state w)) = None ->
  match updateWorkflowStatus env workflowId status result w with
  | (Returned _, w') =>
      workflows_table w' = workflows_table w
      /\ activeWorkflows (state w') = activeWorkflows (state w)
  | (Thrown e, _) => persistence_error env e
  end.
Proof.
  intros Hrows Hcache.
  pose proof (updateWorkflowStatus_spec env workflowId status result w) as H.
  unfold wp in H.
  destruct (updateWorkflowStatus env workflowId status result w)
    as [[[]|e] w']; [|exact H].
  destruct H as [Hactive (now & Htable)]. cbn [fst snd] in *.
  rewrite Htable, Hactive. split.
  - by apply update_row_absent.
  - by apply set_status_of_first_absent.
Qed.

Lemma updateWorkflowStatus_unknown_id_witness :
  match updateWorkflowStatus working_env "9-z" "completed" None
          pending_workflow_world with
  | (Returned _, w') =>
      workflows_table w' = workflows_table pending_workflow_world
      /\ activeWorkflows (state w')
         = activeWorkflows (state pending_workflow_world)
  | (Thrown e, _) => persistence_error working_env e
  end.
Proof.
  apply (updateWorkflowStatus_unknown_id working_env "9-z" "completed" None
           pending_workflow_world).
  - repeat constructor; discriminate.
  - reflexivity.
Defined.

(** X17.  An update that returns rewrites every row of the given id and no
    other row: such a row gets the new status, the result exactly as passed
    (a result stored before is erased when none is passed) and a completion
    time, whatever the new status is; its id, name, parameters and creation
    time stay.  The table keeps its length and its order. *)
Theorem updateWorkflowStatus_rows
    (env : Env) (workflowId status : string) (result : option string)
    (w : World) :
  match updateWorkflowStatus env workflowId status result w with
  | (Returned _, w') =>
      exists now : Z,
        length (workflows_table w') = length (workflows_table w)
        /\ forall (i : nat) (row : WorkflowRow),
             workflows_table w !! i = Some row ->
             exists row',
               workflows_table w' !! i = Some row'
               /\ row_id row' = row_id row
               /\ row_name row' = row_name row
               /\ row_params row' = row_params row
               /\ row_created_at row' = row_created_at row
               /\ if decide (row_id row = workflowId)
                  then row_status row' = status
                       /\ row_result row' = result
                       /\ row_completed_at row' = Some now
                  else row' = row
  | (Thrown e, _) => persistence_error env e
  end.
Proof.
  pose proof (updateWorkflowStatus_spec env workflowId status result w) as H.
  unfold wp in H.
  destruct (updateWorkflowStatus env workflowId status result w)
    as [[[]|e] w']; [|exact H].
  destruct H as [_ (now & Htable)]. cbn [fst snd] in *.
  exists now. rewrite Htable. split; [apply length_map|].
  intros i row Hrow.
  exists (update_row workflowId status result now row).
  split; [by rewrite list_lookup_fmap, Hrow|].
  unfold update_row. by destruct (decide (row_id row = workflowId)).
Qed.

(* ===================================================================== *)
(** * The tool registry: invariants and frames *)
(* ===================================================================== *)

Section RegistryInvariants.

Context {X : Type}.
Implicit Types (reg : Registry X) (tool : Tool X) (env : CallEnv X).

Lemma validate_and_run_frame tool n params ctx env reg :
  tools (snd (validate_and_run tool n params ctx env reg)) = tools reg
  /\ rateLimitTracker (snd (validate_and_run tool n params ctx env reg))
     = rateLimitTracker reg.
Proof.
  unfold validate_and_run.
  destruct (validateParameters params (parameters tool)); [done|].
  by destruct (execute tool params ctx (world env)).
Qed.

Lemma checkRateLimit_tracker n maxCalls per t reg :
  forall m, m <> n ->
    rateLimitTracker (snd (checkRateLimit n maxCalls per t reg)) !! m
    = rateLimitTracker reg !! m.
Proof.
  intros m Hm. unfold checkRateLimit.
  destruct (rateLimitTracker reg !! n) as [tracker|]; cbn.
  - destruct (t >? trk_resetTime tracker); cbn;
      [by rewrite lookup_insert_ne|].
    destruct (trk_calls tracker >=? maxCalls); cbn; [done|].
    by rewrite lookup_insert_ne.
  - by rewrite lookup_insert_ne.
Qed.

Lemma checkRateLimit_counts n maxCalls per t reg :
  (forall trk, rateLimitTracker reg !! n = Some trk -> 1 <= trk_calls trk) ->
  forall trk,
    rateLimitTracker (snd (checkRateLimit n maxCalls per t reg)) !! n = Some trk ->
    1 <= trk_calls trk.
Proof.
  intros Hold trk. unfold checkRateLimit.
  destruct (rateLimitTracker reg !! n) as [tracker|] eqn:Htracker; cbn.
  - specialize (Hold tracker eq_refl).
    destruct (t >? trk_resetTime tracker); cbn.
    { rewrite lookup_insert_eq. intros [= <-]. simpl. lia. }
    destruct (trk_calls tracker >=? maxCalls); cbn.
    { rewrite Htracker. intros [= <-]. done. }
    rewrite lookup_insert_eq. intros [= <-]. simpl. lia.
  - rewrite lookup_insert_eq. intros [= <-]. simpl. lia.
Qed.

Lemma execute_tool_tools n params ctx env reg :
  tools (snd (execute_tool n params ctx env reg)) = tools reg.
Proof.
  unfold execute_tool.
  destruct (tools reg !! n) as [tool|]; [|done].
  destruct (rateLimit tool) as [limit|];
    [|apply validate_and_run_frame].
  pose proof (checkRateLimit_logs n (calls limit) (period limit) (now env) reg)
    as [_ Htools].
  destruct (checkRateLimit n (calls limit) (period limit) (now env) reg)
    as [[] reg1]; cbn [snd] in *; [|done].
  rewrite <- Htools. apply validate_and_run_frame.
Qed.

Lemma tail_Forall {A} (P : A -> Prop) (l : list A) :
  Forall P l -> Forall P (tail l).
Proof. destruct 1; [constructor|done]. Qed.

Lemma register_well_formed tool reg :
  well_formed reg -> well_formed (snd (register tool reg)).
Proof.
  intros [Htools Htrk Hlogs]. unfold register.
  destruct (tools reg !! name tool) eqn:Hfree; [done|].
  unfold validateTool.
  destruct (JsString.truthy (name tool)) eqn:Hname; [|done].
  destruct (JsString.truthy (description tool)) eqn:Hdesc; [|done].
  cbn. split; cbn.
  - intros n t. destruct (decide (n = name tool)) as [->|Hne].
    + rewrite lookup_insert_eq. by intros [= <-].
    + rewrite lookup_insert_ne by done. apply Htools.
  - intros n trk Hn. destruct (Htrk n trk Hn) as (Hc & t & Ht & Hl).
    split; [done|]. exists t. split; [|done].
    rewrite lookup_insert_ne; [done|]. intros <-. congruence.
  - eapply Forall_impl; [exact Hlogs|]. cbn. intros log [t Ht].
    destruct (decide (log_toolName log = name tool)) as [Heq|Hne].
    + rewrite Heq, lookup_insert_eq. eauto.
    + rewrite lookup_insert_ne by done. eauto.
Qed.

Lemma execute_tool_well_formed n params ctx env reg :
  well_formed reg -> well_formed (snd (execute_tool n params ctx env reg)).
Proof.
  intros [Htools Htrk Hlogs].
  pose proof (execute_tool_tools n params ctx env reg) as Hsame.
  split.
  - rewrite Hsame. apply Htools.
  - rewrite Hsame. intros m trk.
    unfold execute_tool.
    destruct (tools reg !! n) as [tool|] eqn:Htool; [|apply Htrk].
    destruct (rateLimit tool) as [limit|] eqn:Hlimit.
    + pose proof (checkRateLimit_tracker n (calls limit) (period limit)
                    (now env) reg) as Hother.
      pose proof (checkRateLimit_counts n (calls limit) (period limit)
                    (now env) reg) as Hcount.
      destruct (checkRateLimit n (calls limit) (period limit) (now env) reg)
        as [ok reg1]; cbn [snd] in *.
      assert (Hgoal : rateLimitTracker reg1 !! m = Some trk ->
                1 <= trk_calls trk
                /\ exists tool0, tools reg !! m = Some tool0
                                 /\ rateLimit tool0 <> None).
      { destruct (decide (m = n)) as [->|Hne].
        - intros Hm. split.
          + apply Hcount; [|done]. intros trk0 H0. by apply (Htrk n trk0).
          + exists tool. split; [done|]. by rewrite Hlimit.
        - rewrite Hother by done. apply Htrk. }
      destruct ok; [|exact Hgoal].
      destruct (validate_and_run_frame tool n params ctx env reg1) as [_ ->].
      exact Hgoal.
    + destruct (validate_and_run_frame tool n params ctx env reg) as [_ ->].
      apply Htrk.
  - rewrite Hsame. unfold execute_tool.
    destruct (tools reg !! n) as [tool|] eqn:Htool; [|done].
    assert (Hrun : forall reg1,
              executionLogs reg1 = executionLogs reg ->
              Forall (fun log => is_Some (tools reg !! log_toolName log))
                (executionLogs (snd (validate_and_run tool n params ctx env reg1)))).
    { intros reg1 Hlogs1. rewrite validate_and_run_logs, Hlogs1.
      destruct (validateParameters params (parameters tool)); [done|].
      destruct (execute tool params ctx (world env)); [|done].
      unfold evict_oldest.
      assert (Hall : Forall (fun log => is_Some (tools reg !! log_toolName log))
                (executionLogs reg ++
                 [{| log_id := uuid env; log_toolName := n;
                     log_agentId := ctx_agentId ctx;
                     log_userId := ctx_userId ctx;
                     log_parameters := params; log_result := a;
                     log_timestamp := ctx_timestamp ctx;
                     log_duration := endTime env - startTime env |}])).
      { apply Forall_app. split; [done|]. constructor; [|constructor].
        cbn. by rewrite Htool. }
      destruct (1000 <? _)%nat; [by apply tail_Forall|done]. }
    destruct (rateLimit tool) as [limit|]; [|by apply Hrun].
    pose proof (checkRateLimit_logs n (calls limit) (period limit) (now env) reg)
      as [Hl _].
    destruct (checkRateLimit n (calls limit) (period limit) (now env) reg)
      as [[] reg1]; cbn [snd] in *.
    + by apply Hrun.
    + by rewrite Hl.
Qed.

Lemma step_well_formed reg (op : Op X) :
  well_formed reg -> well_formed (step reg op).
Proof.
  intros Hwf. destruct op as [tool|n params ctx env|]; simpl.
  - by apply register_well_formed.
  - by apply execute_tool_well_formed.
  - split; cbn; [done|done|constructor].
Qed.

(** [register] only adds: what it finds registered stays registered. *)
Lemma register_subseteq tool reg :
  tools reg ⊆ tools (snd (register tool reg)).
Proof.
  unfold register.
  destruct (tools reg !! name tool) eqn:Hfree; [done|].
  destruct (validateTool X tool); [done|].
  cbn. by apply insert_subseteq.
Qed.

Lemma registerAll_subseteq (new_tools : list (Tool X)) :
  forall reg, tools reg ⊆ tools (snd (registerAll new_tools reg)).
Proof.
  induction new_tools as [|tool rest IH]; intros reg; simpl; [done|].
  pose proof (register_subseteq tool reg) as Hfirst.
  destruct (register tool reg) as [[[]|e] reg1]; cbn [snd] in *; [|done].
  etrans; [exact Hfirst|apply IH].
Qed.

Lemma register_returned tool reg reg1 :
  register tool reg = (Returned tt, reg1) ->
  tools reg !! name tool = None
  /\ tools reg1 = <[name tool := tool]> (tools reg)
  /\ executionLogs reg1 = executionLogs reg
  /\ rateLimitTracker reg1 = rateLimitTracker reg.
Proof.
  unfold register.
  destruct (tools reg !! name tool) eqn:Hfree; [done|].
  destruct (validateTool X tool); [done|].
  by intros [= <-].
Qed.

Lemma register_thrown tool reg reg1 e :
  register tool reg = (Thrown e, reg1) -> reg1 = reg.
Proof.
  unfold register.
  destruct (tools reg !! name tool) eqn:Hfree; [by intros [= _ <-]|].
  destruct (validateTool X tool); [by intros [= _ <-]|done].
Qed.

End RegistryInvariants.

(** X18.  Whatever sequence of [register], [execute] and [clear] is applied
    to a new registry, every tool is stored under its own name and has a
    name and a description that are not empty, every rate-limit tracker
    counts at least one call and belongs to a registered tool that declares
    a rate limit, and every log entry names a registered tool. *)
Theorem registry_well_formed {X : Type} (ops : list (Op X)) :
  well_formed (run ops).
Proof.
  unfold run.
  assert (Hgen : forall reg : Registry X,
            well_formed reg -> well_formed (fold_left step ops reg)).
  { induction ops as [|op ops IH]; intros reg Hwf; simpl; [done|].
    apply IH. by apply step_well_formed. }
  apply Hgen. split; cbn; [done|done|constructor].
Qed.

(** X19.  [registerAll] is not atomic and never replaces a tool.  Whatever
    was registered before stays as it was.  When it returns, every given
    tool is retrievable by its name.  When it throws, the tools before the
    first rejected one are registered and retrievable, the rejected one is
    what [register] refuses in that state, and no later one is tried. *)
Theorem registerAll_partial {X : Type}
    (new_tools : list (Tool X)) (reg : Registry X) :
  match registerAll new_tools reg with
  | (Returned _, reg') =>
      tools reg ⊆ tools reg'
      /\ Forall (fun tool => get_tool (name tool) reg' = Some tool) new_tools
  | (Thrown e, reg') =>
      tools reg ⊆ tools reg'
      /\ exists done_ tool rest,
           new_tools = done_ ++ tool :: rest
           /\ registerAll done_ reg = (Returned tt, reg')
           /\ Forall (fun t => get_tool (name t) reg' = Some t) done_
           /\ register tool reg' = (Thrown e, reg')
  end.
Proof.
  revert reg. induction new_tools as [|tool rest IH]; intros reg.
  - simpl. split; [done|constructor].
  - simpl. pose proof (registerAll_subseteq rest) as Hmono.
    destruct (register tool reg) as [[[]|e] reg1] eqn:Hreg.
    + destruct (register_returned tool reg reg1 Hreg) as (Hfree & Htools & _).
      assert (Hsub : tools reg ⊆ tools reg1).
      { rewrite Htools. by apply insert_subseteq. }
      assert (Hhere : tools reg1 !! name tool = Some tool).
      { rewrite Htools. apply lookup_insert_eq. }
      specialize (IH reg1). specialize (Hmono reg1).
      destruct (registerAll rest reg1) as [[[]|e] reg'] eqn:Hrest;
        cbn [snd] in *.
      * destruct IH as [_ Hall]. split; [by etrans|].
        constructor; [|done].
        unfold get_tool. by eapply lookup_weaken.
      * destruct IH as [_ (done_ & t & rest' & -> & Hdone & Hall & Hthrow)].
        split; [by etrans|].
        exists (tool :: done_), t, rest'. split; [done|]. split.
        { simpl. by rewrite Hreg. }
        split; [|done]. constructor; [|done].
        unfold get_tool. by eapply lookup_weaken.
    + pose proof (register_thrown tool reg reg1 e Hreg) as ->.
      split; [done|]. exists [], tool, rest. by repeat split.
Qed.

(** X20.  [execute] never changes the set of registered tools and never
    touches the rate-limit tracker of another tool.  A call for an unknown
    tool, or for a tool without a rate limit whose body does not return,
    leaves the registry exactly as it was. *)
Theorem execute_tool_frame {X : Type}
    (reg : Registry X) (n : string) (params : Params) (ctx : ToolContext)
    (env : CallEnv X) :
  let reg' := snd (execute_tool n params ctx env reg) in
  tools reg' = tools reg
  /\ (forall m, m <> n ->
        rateLimitTracker reg' !! m = rateLimitTracker reg !! m)
  /\ match tools reg !! n with
     | None => reg' = reg
     | Some tool =>
         rateLimit tool = None ->
         rateLimitTracker reg' = rateLimitTracker reg
         /\ match execute tool params ctx (world env) with
            | Returned _ => True
            | Thrown _ => reg' = reg
            end
     end.
Proof.
  cbn zeta. split; [apply execute_tool_tools|].
  unfold execute_tool.
  destruct (tools reg !! n) as [tool|] eqn:Htool; [|done].
  destruct (rateLimit tool) as [limit|] eqn:Hlimit.
  - split; [|done]. intros m Hm.
    pose proof (checkRateLimit_tracker n (calls limit) (period limit)
                  (now env) reg m Hm) as Hother.
    destruct (checkRateLimit n (calls limit) (period limit) (now env) reg)
      as [[] reg1]; cbn [snd] in *; [|done].
    by destruct (validate_and_run_frame tool n params ctx env reg1) as [_ ->].
  - destruct (validate_and_run_frame tool n params ctx env reg) as [_ Htrk].
    split; [by intros; rewrite Htrk|].
    intros _. split; [done|].
    unfold validate_and_run.
    destruct (execute tool params ctx (world env)); [done|].
    by destruct (validateParameters params (parameters tool)).
Qed.

(* ===================================================================== *)
(** * The tool registry: rate limit, results and log queries *)
(* ===================================================================== *)

Section RateLimitWindow.

Context {X : Type}.
Implicit Types (reg : Registry X).

(** Inside a window that counts [c] calls, the next checks pass until the
    count reaches [maxCalls]. *)
Lemma check_all_within_window n maxCalls per (times : list Z) :
  forall reg c reset,
  rateLimitTracker reg !! n = Some {| trk_calls := c; trk_resetTime := reset |} ->
  Forall (fun t => t <= reset) times ->
  check_all n maxCalls per times reg
  = replicate (Z.to_nat (Z.min (Z.of_nat (length times)) (maxCalls - c))) true
    ++ replicate
         (length times
          - Z.to_nat (Z.min (Z.of_nat (length times)) (maxCalls - c))) false.
Proof.
  induction times as [|t times IH]; intros reg c reset Htrk Hin.
  - simpl length.
    replace (Z.to_nat (Z.min (Z.of_nat 0) (maxCalls - c))) with 0%nat by lia.
    done.
  - apply Forall_cons_1 in Hin as [Ht Hin].
    simpl check_all. unfold checkRateLimit. rewrite Htrk. cbn.
    replace (t >? reset) with false
      by (symmetry; rewrite Z.gtb_ltb; apply Z.ltb_ge; lia).
    destruct (c >=? maxCalls) eqn:Hfull.
    + rewrite Z.geb_leb in Hfull. apply Z.leb_le in Hfull.
      rewrite (IH reg c reset Htrk Hin).
      replace (Z.to_nat (Z.min (Z.of_nat (length times)) (maxCalls - c)))
        with 0%nat by lia.
      replace (Z.to_nat (Z.min (Z.of_nat (S (length times))) (maxCalls - c)))
        with 0%nat by lia.
      simpl. by rewrite Nat.sub_0_r.
    + rewrite Z.geb_leb in Hfull. apply Z.leb_gt in Hfull.
      rewrite (IH _ (c + 1) reset); [|by cbn; rewrite lookup_insert_eq|done].
      replace (Z.to_nat (Z.min (Z.of_nat (S (length times))) (maxCalls - c)))
        with (S (Z.to_nat (Z.min (Z.of_nat (length times))
                             (maxCalls - (c + 1)))))
        by lia.
      simpl. reflexivity.
Qed.

End RateLimitWindow.

(** X21.  A call rejected by parameter validation has already spent a slot
    of the rate limit: the check comes first and is not taken back.  For a
    tool limited to at most one call per period, an invalid first call (the
    body does not run, nothing is logged) makes the next call inside the
    period fail with the rate-limit message, whatever its parameters. *)
Theorem invalid_call_spends_rate_limit {X : Type}
    (reg : Registry X) (tool : Tool X) (n : string) (limit : RateLimit)
    (params params' : Params) (ctx ctx' : ToolContext) (e1 e2 : CallEnv X)
    (err : string) :
  tools reg !! n = Some tool ->
  rateLimit tool = Some limit ->
  validateParameters params (parameters tool) = Some err ->
  rateLimitTracker reg !! n = None ->
  calls limit <= 1 ->
  now e2 <= now e1 + period limit * 1000 ->
  match execute_tool n params ctx e1 reg with
  | (r1, reg1) =>
      r1 = failure ("Parameter validation failed: " +:+ err) None
      /\ executionLogs reg1 = executionLogs reg
      /\ rateLimitTracker reg1 !! n
         = Some (fresh_window (now e1) (period limit))
      /\ fst (execute_tool n params' ctx' e2 reg1)
         = failure ("Rate limit exceeded for tool '" +:+ n
                    +:+ "'. Please try again later.") None
  end.
Proof.
  intros Htool Hlimit Hinvalid Hfresh Hcalls Hnow.
  unfold execute_tool at 1. rewrite Htool, Hlimit.
  unfold checkRateLimit at 1. rewrite Hfresh. cbn.
  unfold validate_and_run. rewrite Hinvalid.
  split; [done|]. split; [done|].
  split; [by cbn; rewrite lookup_insert_eq|].
  unfold execute_tool. cbn. rewrite Htool, Hlimit.
  unfold checkRateLimit. cbn. rewrite lookup_insert_eq. cbn.
  replace (now e2 >? now e1 + period limit * 1000) with false
    by (symmetry; rewrite Z.gtb_ltb; apply Z.ltb_ge; lia).
  replace (1 >=? calls limit) with true
    by (symmetry; rewrite Z.geb_leb; apply Z.leb_le; lia).
  done.
Qed.

Lemma invalid_call_spends_rate_limit_witness :
  match execute_tool "echo" ∅ sample_context (call_at 0)
          (registry_with limited_echo_tool) with
  | (r1, reg1) =>
      r1 = failure ("Parameter validation failed: "
                    +:+ "Missing required parameter: text") None
      /\ executionLogs reg1 = executionLogs (registry_with limited_echo_tool)
      /\ rateLimitTracker reg1 !! "echo" = Some (fresh_window 0 60)
      /\ fst (execute_tool "echo" {[ "text" := JsStr "hello" ]} sample_context
                (call_at 1000) reg1)
         = failure ("Rate limit exceeded for tool '" +:+ "echo"
                    +:+ "'. Please try again later.") None
  end.
Proof.
  apply (invalid_call_spends_rate_limit (registry_with limited_echo_tool)
           limited_echo_tool "echo" {| calls := 1; period := 60 |}
           ∅ {[ "text" := JsStr "hello" ]} sample_context sample_context
           (call_at 0) (call_at 1000) "Missing required parameter: text").
  - reflexivity.
  - reflexivity.
  - reflexivity.
  - reflexivity.
  - simpl. lia.
  - simpl. lia.
Defined.

(** X22.  The checks of one window.  When a tool has no tracker yet, of the
    consecutive checks that fall inside the window opened by the first one
    exactly the first [max 1 maxCalls] pass and all later ones fail.  The
    first check is never counted against the limit, so a limit of zero or
    less still lets one call through per window. *)
Theorem checkRateLimit_window {X : Type}
    (reg : Registry X) (n : string) (maxCalls per t0 : Z) (later : list Z) :
  rateLimitTracker reg !! n = None ->
  Forall (fun t => t <= t0 + per * 1000) later ->
  let passing :=
    Z.to_nat (Z.min (Z.of_nat (length (t0 :: later))) (Z.max 1 maxCalls)) in
  check_all n maxCalls per (t0 :: later) reg
  = replicate passing true
    ++ replicate (length (t0 :: later) - passing) false.
Proof.
  intros Hfresh Hin. cbn zeta.
  simpl check_all. unfold checkRateLimit at 1. rewrite Hfresh.
  rewrite (check_all_within_window n maxCalls per later _ 1 (t0 + per * 1000));
    [|by cbn; rewrite lookup_insert_eq|done].
  replace (Z.to_nat (Z.min (Z.of_nat (length (t0 :: later))) (Z.max 1 maxCalls)))
    with (S (Z.to_nat (Z.min (Z.of_nat (length later)) (maxCalls - 1))))
    by (simpl length; lia).
  simpl. reflexivity.
Qed.

Lemma checkRateLimit_window_witness :
  check_all "rate_limited" 0 60 [0; 10; 20] (@empty_registry unit)
  = [true; false; false].
Proof.
  apply (checkRateLimit_window (@empty_registry unit) "rate_limited" 0 60 0
           [10; 20]).
  - reflexivity.
  - repeat constructor; simpl; lia.
Defined.

Section LogQueries.

Context {X : Type}.
Implicit Types (reg : Registry X) (logs : list ToolExecutionLog).

Lemma sublist_Forall_of {A} (P : A -> Prop) (l1 l2 : list A) :
  sublist l1 l2 -> Forall P l2 -> Forall P l1.
Proof.
  induction 1 as [|x l1 l2 _ IH|x l1 l2 _ IH]; intros Hall; [done|..].
  - apply Forall_cons_1 in Hall as [Hx Hall]. constructor; auto.
  - apply Forall_cons_1 in Hall as [_ Hall]. auto.
Qed.

Lemma filter_by_sublist wanted field logs :
  sublist (filter_by wanted field logs) logs.
Proof.
  unfold filter_by. destruct wanted as [v|]; [|done].
  destruct (JsString.truthy v); [|done]. apply sublist_filter.
Qed.

Lemma filter_by_passes wanted field logs :
  Forall (fun log => passes_filter wanted (field log))
    (filter_by wanted field logs).
Proof.
  unfold filter_by, passes_filter. destruct wanted as [v|].
  - destruct (JsString.truthy v).
    + apply Forall_forall. intros log Hin.
      by apply list_elem_of_filter in Hin as [Hp _].
    + by apply Forall_forall.
  - by apply Forall_forall.
Qed.

Lemma filter_by_complete wanted field logs log :
  log ∈ logs -> passes_filter wanted (field log) ->
  log ∈ filter_by wanted field logs.
Proof.
  unfold filter_by, passes_filter. intros Hin Hp.
  destruct wanted as [v|]; [|done].
  destruct (JsString.truthy v); [|done].
  by apply list_elem_of_filter.
Qed.

Lemma slice_from_sublist {A} (start : Z) (l : list A) :
  sublist (slice_from start l) l.
Proof. unfold slice_from. destruct (start <? 0); apply sublist_drop. Qed.

Lemma slice_from_last_length {A} (limit : Z) (l : list A) :
  0 < limit ->
  Z.of_nat (length (slice_from (- limit) l))
  = Z.min limit (Z.of_nat (length l)).
Proof.
  intros Hpos. unfold slice_from.
  replace (- limit <? 0) with true by (symmetry; apply Z.ltb_lt; lia).
  rewrite length_drop. lia.
Qed.

Lemma slice_from_skip {A} (start : Z) (l : list A) :
  0 <= start -> slice_from start l = drop (Z.to_nat start) l.
Proof.
  intros Hpos. unfold slice_from.
  replace (start <? 0) with false by (symmetry; apply Z.ltb_ge; lia).
  destruct (decide (start <= Z.of_nat (length l))) as [Hle|Hgt].
  - f_equal. lia.
  - replace (Z.to_nat (Z.min start (Z.of_nat (length l)))) with (length l)
      by lia.
    rewrite !drop_ge; [done|lia|lia].
Qed.

End LogQueries.

(** X23.  [getExecutionLogs] with filters returns log entries in their
    logged order, each of which passes every filter given (an empty string
    does not filter).  A positive [limit] keeps exactly the last [limit] of
    the matching entries, or all of them when there are fewer; without a
    limit, or with limit 0, every matching entry is returned; a negative
    limit [-k] instead drops the first [k] matching entries. *)
Theorem getExecutionLogs_filtered {X : Type}
    (f : LogFilters) (reg : Registry X) :
  let result := getExecutionLogs (Some f) reg in
  let matching :=
    filter_by (f_userId f) log_userId
      (filter_by (f_agentId f) (fun log => Some (log_agentId log))
         (filter_by (f_toolName f) (fun log => Some (log_toolName log))
            (executionLogs reg))) in
  sublist result (executionLogs reg)
  /\ Forall (fun log =>
               passes_filter (f_toolName f) (Some (log_toolName log))
               /\ passes_filter (f_agentId f) (Some (log_agentId log))
               /\ passes_filter (f_userId f) (log_userId log)) result
  /\ (forall log,
        log ∈ executionLogs reg ->
        passes_filter (f_toolName f) (Some (log_toolName log)) ->
        passes_filter (f_agentId f) (Some (log_agentId log)) ->
        passes_filter (f_userId f) (log_userId log) ->
        log ∈ matching)
  /\ match f_limit f with
     | Some limit =>
         (limit = 0 -> result = matching)
         /\ (0 < limit ->
             result = drop (length matching - Z.to_nat limit) matching
             /\ Z.of_nat (length result)
                = Z.min limit (Z.of_nat (length matching)))
         /\ (limit < 0 -> result = drop (Z.to_nat (- limit)) matching)
     | None => result = matching
     end.
Proof.
  cbn zeta. unfold getExecutionLogs.
  set (l1 := filter_by (f_toolName f) _ (executionLogs reg)).
  set (l2 := filter_by (f_agentId f) _ l1).
  set (l3 := filter_by (f_userId f) _ l2).
  assert (Hsub : sublist l3 (executionLogs reg)).
  { etrans; [apply filter_by_sublist|].
    etrans; [apply filter_by_sublist|]. apply filter_by_sublist. }
  assert (Hpass : Forall (fun log =>
                    passes_filter (f_toolName f) (Some (log_toolName log))
                    /\ passes_filter (f_agentId f) (Some (log_agentId log))
                    /\ passes_filter (f_userId f) (log_userId log)) l3).
  { pose proof (filter_by_passes (f_toolName f)
                  (fun log => Some (log_toolName log)) (executionLogs reg)) as H1.
    pose proof (filter_by_passes (f_agentId f)
                  (fun log => Some (log_agentId log)) l1) as H2.
    pose proof (filter_by_passes (f_userId f) log_userId l2) as H3.
    fold l1 in H1. fold l2 in H2. fold l3 in H3.
    assert (H1' := sublist_Forall_of _ _ _
                     (filter_by_sublist (f_agentId f)
                        (fun log => Some (log_agentId log)) l1) H1).
    fold l2 in H1'.
    assert (H1'' := sublist_Forall_of _ _ _
                      (filter_by_sublist (f_userId f) log_userId l2) H1').
    assert (H2' := sublist_Forall_of _ _ _
                     (filter_by_sublist (f_userId f) log_userId l2) H2).
    fold l3 in H1'', H2'.
    rewrite Forall_forall in H1'', H2', H3. apply Forall_forall.
    intros log Hin. auto. }
  assert (Hcomplete : forall log,
            log ∈ executionLogs reg ->
            passes_filter (f_toolName f) (Some (log_toolName log)) ->
            passes_filter (f_agentId f) (Some (log_agentId log)) ->
            passes_filter (f_userId f) (log_userId log) ->
            log ∈ l3).
  { intros log Hin Ht Ha Hu.
    apply filter_by_complete; [|done].
    apply filter_by_complete; [|done].
    by apply filter_by_complete. }
  destruct (f_limit f) as [limit|]; [|done].
  destruct (limit =? 0) eqn:Hzero.
  - apply Z.eqb_eq in Hzero. subst limit.
    split; [done|]. split; [done|]. split; [done|]. split; [done|].
    split; lia.
  - apply Z.eqb_neq in Hzero.
    split; [etrans; [apply slice_from_sublist|done]|].
    split; [eapply sublist_Forall_of; [apply slice_from_sublist|done]|].
    split; [done|]. split; [done|]. split.
    + intros Hpos. split; [|by apply slice_from_last_length].
      unfold slice_from.
      replace (- limit <? 0) with true by (symmetry; apply Z.ltb_lt; lia).
      f_equal. lia.
    + intros Hneg. apply slice_from_skip. lia.
Qed.

(** X24.  What [execute] returns for a parameter object and a tool body
    that returns or throws a value with a message.  An unknown tool, an
    exhausted rate limit and a validation failure each give [success =
    false] with their own message, no data and no execution time.  A body
    that returns gives its own result with the measured duration as the
    execution time; a body that throws gives [success = false] with the
    thrown message, or [Tool execution failed] when that is empty, and the
    duration.  So a failure built by [execute] always has a message that is
    not empty, and an execution time is reported exactly when the body
    ran. *)
Theorem execute_tool_result {X : Type}
    (reg : Registry X) (n : string) (params : Params) (ctx : ToolContext)
    (env : CallEnv X) :
  let r := fst (execute_tool n params ctx env reg) in
  let refused (message : string) :=
    success r = false /\ data r = None /\ error r = Some message
    /\ executionTime r = None in
  match tools reg !! n with
  | None => refused ("Tool '" +:+ n +:+ "' not found")
  | Some tool =>
      if rate_limit_passes tool n env reg then
        match validateParameters params (parameters tool) with
        | Some validationError =>
            refused ("Parameter validation failed: " +:+ validationError)
        | None =>
            match execute tool params ctx (world env) with
            | Returned result =>
                success r = success result
                /\ data r = data result
                /\ error r = error result
                /\ executionTime r = Some (endTime env - startTime env)
            | Thrown message =>
                success r = false
                /\ data r = None
                /\ error r = Some (if JsString.truthy message then message
                                   else "Tool execution failed")
                /\ executionTime r = Some (endTime env - startTime env)
            end
        end
      else
        refused ("Rate limit exceeded for tool '" +:+ n
                 +:+ "'. Please try again later.")
  end
  /\ ((forall tool result,
         tools reg !! n = Some tool ->
         execute tool params ctx (world env) <> Returned result) ->
      exists message,
        error r = Some message /\ JsString.truthy message = true)
  /\ (is_Some (executionTime r)
      <-> exists tool,
            tools reg !! n = Some tool
            /\ rate_limit_passes tool n env reg = true
            /\ validateParameters params (parameters tool) = None).
Proof.
  cbn zeta. unfold execute_tool, rate_limit_passes.
  destruct (tools reg !! n) as [tool|] eqn:Htool.
  2:{ cbn. split; [done|]. split.
      - intros _. eexists. split; [reflexivity|]. done.
      - split; [by intros [? ?]|]. by intros (tool & ? & _). }
  assert (Hrun : forall reg1,
            let r := fst (validate_and_run tool n params ctx env reg1) in
            match validateParameters params (parameters tool) with
            | Some validationError =>
                success r = false /\ data r = None
                /\ error r = Some ("Parameter validation failed: "
                                   +:+ validationError)
                /\ executionTime r = None
            | None =>
                match execute tool params ctx (world env) with
                | Returned result =>
                    success r = success result
                    /\ data r = data result
                    /\ error r = error result
                    /\ executionTime r = Some (endTime env - startTime env)
                | Thrown message =>
                    success r = false
                    /\ data r = None
                    /\ error r = Some (if JsString.truthy message then message
                                       else "Tool execution failed")
                    /\ executionTime r = Some (endTime env - startTime env)
                end
            end).
  { intros reg1. cbn zeta. unfold validate_and_run.
    destruct (validateParameters params (parameters tool)) as [err|]; [done|].
    by destruct (execute tool params ctx (world env)) as [result|message]. }
  assert (Hcases : forall reg1,
            let r := fst (validate_and_run tool n params ctx env reg1) in
            ((forall tool0 result,
                Some tool = Some tool0 ->
                execute tool0 params ctx (world env) <> Returned result) ->
             exists message,
               error r = Some message /\ JsString.truthy message = true)
            /\ (is_Some (executionTime r)
                <-> validateParameters params (parameters tool) = None)).
  { intros reg1. specialize (Hrun reg1). cbn zeta in *.
    destruct (validateParameters params (parameters tool)) as [err|].
    - destruct Hrun as (_ & _ & -> & ->). split.
      + intros _. eexists. split; [reflexivity|]. done.
      + split; [by intros [? ?]|done].
    - destruct (execute tool params ctx (world env)) as [result|message] eqn:Hbody.
      + destruct Hrun as (_ & _ & _ & ->). split.
        * intros Hnot. by destruct (Hnot tool result eq_refl).
        * split; [done|by eexists].
      + destruct Hrun as (_ & _ & -> & ->). split.
        * intros _. eexists. split; [reflexivity|]. by destruct message.
        * split; [done|by eexists]. }
  destruct (rateLimit tool) as [limit|] eqn:Hlimit.
  - destruct (checkRateLimit n (calls limit) (period limit) (now env) reg)
      as [[] reg1] eqn:Hcheck; cbn [fst].
    + split; [apply Hrun|]. destruct (Hcases reg1) as [Hmsg Htime].
      split; [exact Hmsg|]. rewrite Htime. split.
      * intros Hvalid. exists tool. rewrite Hlimit, Hcheck. by repeat split.
      * by intros (tool0 & [= <-] & _ & Hvalid).
    + cbn. split; [done|]. split.
      * intros _. eexists. split; [reflexivity|]. done.
      * split; [by intros [? ?]|].
        intros (tool0 & [= <-] & Hpass & _).
        rewrite Hlimit, Hcheck in Hpass. discriminate Hpass.
  - split; [apply Hrun|]. destruct (Hcases reg) as [Hmsg Htime].
    split; [exact Hmsg|]. rewrite Htime. split.
    + intros Hvalid. exists tool. rewrite Hlimit. by repeat split.
    + by intros (tool0 & [= <-] & _ & Hvalid).
Qed.

(* ===================================================================== *)
(** * The stateless service: completion with fallback, moderation *)
(* ===================================================================== *)

(** Split on every answer of the binding and on the text it carries. *)
Ltac split_answers env :=
  repeat match goal with
    | |- context [match ai_run env ?k with _ => _ end] =>
        let E := fresh "Hrun" in
        destruct (ai_run env k) as [?e|?r] eqn:E; cbn
    | |- context [match resp_response ?r with _ => _ end] =>
        let R := fresh "Htext" in
        destruct (resp_response r) as [?t|] eqn:R; cbn
    | |- context [if JsString.truthy ?t then _ else _] =>
        let T := fresh "Htruthy" in
        destruct (JsString.truthy t) eqn:T; cbn
    end.

Section Completion.

Variable env : Env.

Lemma rejections_bound (limit k : nat) : (rejections env k limit <= limit)%nat.
Proof.
  revert k. induction limit as [|limit IH]; intros k; simpl; [done|].
  destruct (ai_run env k); [|lia]. specialize (IH (S k)). lia.
Qed.

Lemma rejections_rejected (limit : nat) :
  forall k i, (i < rejections env k limit)%nat ->
  exists e, ai_run env (k + i) = AIRejects e.
Proof.
  induction limit as [|limit IH]; intros k i Hi; simpl in Hi; [lia|].
  destruct (ai_run env k) as [e|r] eqn:Hk; [|lia].
  destruct i as [|i].
  - rewrite Nat.add_0_r. eauto.
  - replace (k + S i)%nat with (S k + i)%nat by lia. apply IH. lia.
Qed.

Lemma rejections_stop (limit : nat) :
  forall k,
  rejections env k limit = limit
  \/ exists r, ai_run env (k + rejections env k limit) = AIResolves r.
Proof.
  induction limit as [|limit IH]; intros k; simpl; [by left|].
  destruct (ai_run env k) as [e|r] eqn:Hk.
  - destruct (IH (S k)) as [->|[r Hr]]; [by left|].
    right. exists r.
    by replace (k + S (rejections env (S k) limit))%nat
         with (S k + rejections env (S k) limit)%nat by lia.
  - right. exists r. by rewrite Nat.add_0_r.
Qed.

End Completion.

(** X25.  [AIService.generateChatCompletion] is decided by the first of at
    most three attempts on the primary model that is not rejected.  When
    that attempt carries a text, the text is returned and the fallback model
    is not called.  When it carries none, or all three attempts were
    rejected, the fallback model is called once, right after, and its text
    is returned, or the apology when it is rejected or carries none.  So
    the completion never throws, never returns an empty text and changes
    nothing of the agent. *)
Theorem generateChatCompletion_result (env : Env) (w : World) :
  let j := rejections env (interactions w) 2 in
  let primary :=
    backoff_trace AIService.LLM_MODEL 1000 0 j
      ++ [EffAIRun AIService.LLM_MODEL] in
  AIService.generateChatCompletion env w
  = match answer_text (ai_run env (interactions w + j)) with
    | Some text => (Returned text, after_calls (S j) primary w)
    | None =>
        (Returned
           (default AIService.APOLOGY
              (answer_text (ai_run env (interactions w + S j)))),
         after_calls (S (S j))
           (primary ++ [EffAIRun AIService.FALLBACK_MODEL]) w)
    end
  /\ exists text w',
       AIService.generateChatCompletion env w = (Returned text, w')
       /\ JsString.truthy text = true
       /\ untouched w w'.
Proof.
  cbn zeta. set (j := rejections env (interactions w) 2).
  assert (Hj : (j <= 2)%nat) by apply rejections_bound.
  assert (Hfail : forall i, (i < j)%nat ->
            exists e, ai_run env (interactions w + i) = AIRejects e)
    by apply rejections_rejected.
  assert (Hlast : S j = 3%nat
                  \/ exists r, ai_run env (interactions w + j) = AIResolves r).
  { destruct (rejections_stop env 2 (interactions w)) as [H|H];
      [left; unfold j; lia | by right]. }
  clearbody j.
  assert (Heq : AIService.generateChatCompletion env w
    = match answer_text (ai_run env (interactions w + j)) with
      | Some text =>
          (Returned text,
           after_calls (S j)
             (backoff_trace AIService.LLM_MODEL 1000 0 j
                ++ [EffAIRun AIService.LLM_MODEL]) w)
      | None =>
          (Returned
             (default AIService.APOLOGY
                (answer_text (ai_run env (interactions w + S j)))),
           after_calls (S (S j))
             ((backoff_trace AIService.LLM_MODEL 1000 0 j
                 ++ [EffAIRun AIService.LLM_MODEL])
                ++ [EffAIRun AIService.FALLBACK_MODEL]) w)
      end).
  { unfold AIService.generateChatCompletion, try_catch, bind, retry.
    rewrite (retry_from_AI_run env AIService.LLM_MODEL 3 1000 j 3 "undefined" w);
      [|lia|lia|done|done].
    rewrite Nat.sub_diag.
    assert (Hfallback : forall w0 : World,
              AIService.generateWithFallback env w0
              = (Returned (default AIService.APOLOGY
                             (answer_text (ai_run env (interactions w0)))),
                 after_calls 1 [EffAIRun AIService.FALLBACK_MODEL] w0)).
    { intros w0. unfold AIService.generateWithFallback. run_m.
      unfold answer_text, after_calls.
      destruct (ai_run env (interactions w0)) as [e|resp]; cbn;
        [by rewrite Nat.add_1_r|].
      destruct (resp_response resp) as [text|]; cbn;
        [|by rewrite Nat.add_1_r].
      destruct (JsString.truthy text); cbn; by rewrite Nat.add_1_r. }
    assert (Hafter : after_calls 1 [EffAIRun AIService.FALLBACK_MODEL]
                       (after_calls (S j)
                          (backoff_trace AIService.LLM_MODEL 1000 0 j
                             ++ [EffAIRun AIService.LLM_MODEL]) w)
                     = after_calls (S (S j))
                         ((backoff_trace AIService.LLM_MODEL 1000 0 j
                             ++ [EffAIRun AIService.LLM_MODEL])
                            ++ [EffAIRun AIService.FALLBACK_MODEL]) w).
    { unfold after_calls, set_interactions, set_trace. cbn.
      f_equal; [lia|by rewrite <- !app_assoc]. }
    assert (Hat : forall tr,
              interactions (after_calls (S j) tr w) = (interactions w + S j)%nat)
      by done.
    unfold answer_text at 1.
    destruct (ai_run env (interactions w + j)) as [e|resp].
    - by rewrite Hfallback, Hat, Hafter.
    - destruct (resp_response resp) as [text|]; cbn.
      + destruct (JsString.truthy text); cbn; [done|].
        by rewrite Hfallback, Hat, Hafter.
      + by rewrite Hfallback, Hat, Hafter. }
  split; [exact Heq|]. rewrite Heq.
  destruct (answer_text (ai_run env (interactions w + j))) as [text|] eqn:Htext.
  - eexists _, _. split; [reflexivity|]. split; [|by split].
    unfold answer_text in Htext.
    destruct (ai_run env (interactions w + j)) as [e|resp]; [done|].
    destruct (resp_response resp) as [t|]; [|done].
    destruct (JsString.truthy t) eqn:Ht; [|done]. by injection Htext as <-.
  - eexists _, _. split; [reflexivity|]. split; [|by split].
    unfold answer_text.
    destruct (ai_run env (interactions w + S j)) as [e|resp]; [done|].
    destruct (resp_response resp) as [t|]; [|done].
    by destruct (JsString.truthy t) eqn:Ht.
Qed.

(** X26.  As long as the [response] of an answer of the binding is a
    string, [AIService.moderateContent] never throws, and it declares a
    content safe only on an answer of the binding whose text starts with
    [SAFE]; the handler that defaults to safe is then never reached, because
    the completion it guards does not throw.  Otherwise the verdict is
    unsafe, with the reason read off an answer of the binding or off the
    apology. *)
Theorem moderateContent_verdict (env : Env) (content : string) (w : World) :
  wp (AIService.moderateContent env content) w (fun r w' =>
    exists text,
      (text = AIService.APOLOGY
       \/ exists k resp,
            ai_run env k = AIResolves resp /\ resp_response resp = Some text)
      /\ ((JsString.startsWith "SAFE" text = true
           /\ r = Returned verdict_safe)
          \/ (JsString.startsWith "SAFE" text = false
              /\ r = Returned (verdict_unsafe text)))).
Proof.
  unfold AIService.moderateContent, AIService.generateChatCompletion,
    AIService.generateWithFallback, retry, retry_from.
  run_m. split_answers env;
    repeat match goal with
      | |- context [if JsString.startsWith "SAFE" ?t then _ else _] =>
          let S := fresh "Hsafe" in
          destruct (JsString.startsWith "SAFE" t) eqn:S; cbn
      end;
    try (exists AIService.APOLOGY; split; [by left|]; right; by split);
    eexists; (split; [right; eexists _, _; split; eassumption|]);
    first [left; by split | right; by split].
Qed.

(** X27.  When every call of the binding is rejected, [moderateContent]
    answers unsafe, with the apology of the service as the reason: a
    moderation that could not reach any model flags the content. *)
Theorem moderateContent_inference_down (env : Env) (content : string) (w : World) :
  (forall k, exists e, ai_run env k = AIRejects e) ->
  fst (AIService.moderateContent env content w)
  = Returned {| AIService.safe := false;
                AIService.reason := Some AIService.APOLOGY |}.
Proof.
  intros Hdown.
  unfold AIService.moderateContent, AIService.generateChatCompletion,
    AIService.generateWithFallback, retry, retry_from.
  run_m.
  destruct (Hdown (interactions w)) as [e1 ->]. cbn.
  destruct (Hdown (S (interactions w))) as [e2 ->]. cbn.
  destruct (Hdown (S (S (interactions w)))) as [e3 ->]. cbn.
  destruct (Hdown (S (S (S (interactions w))))) as [e4 ->]. cbn.
  reflexivity.
Qed.

Lemma moderateContent_inference_down_witness :
  fst (AIService.moderateContent inference_down_env "Hello" (initial_world 0))
  = Returned {| AIService.safe := false;
                AIService.reason := Some AIService.APOLOGY |}.
Proof.
  apply (moderateContent_inference_down inference_down_env "Hello"
           (initial_world 0)).
  intros k. exists "AI Error". reflexivity.
Defined.
